(** * Smart Parking: the allocation and release handlers of [app.py]

    The two SQLite tables are finite maps keyed by their INTEGER PRIMARY
    KEY; each Flask handler is a function from the database (and the
    request body) to a response and the database it leaves behind.  The
    columns keep their SQL types: [floor] and [spot_type] are text,
    [is_occupied] and [is_premium] are integers that the code compares with
    0 and 1.  The id in a request body is a JSON integer, as every id of
    the tables is, or it is absent; a body that carries the id as a string
    or another JSON value is outside the model. *)

From Stdlib Require Import QArith.
From stdpp Require Import gmap strings list fin_maps sorting pretty.

Local Open Scope Z_scope.

(** ** Tables *)

(** A row of [ParkingSpots] without its key [spot_id]. *)
Record SpotRow := mkSpot {
  floor : string;
  spot_type : string;
  is_occupied : Z
}.

(** A row of [Users] without its key [user_id]. *)
Record UserRow := mkUser {
  role : string;
  is_premium : Z
}.

Record Database := mkDb {
  ParkingSpots : gmap Z SpotRow;
  Users : gmap Z UserRow
}.

(** A result row that carries its [spot_id]. *)
Abbreviation SpotEntry := (Z * SpotRow)%type.

Definition spot_id_le (a b : SpotEntry) : Prop := a.1 ≤ b.1.

#[local] Instance spot_id_le_dec : RelDecision spot_id_le.
Proof. intros a b. unfold spot_id_le. apply _. Defined.

(** [spot_id INTEGER PRIMARY KEY] makes [ParkingSpots] a rowid table:
    SQLite keeps it in a B-tree keyed by [spot_id].  SQLite does not promise
    an order for a SELECT without ORDER BY; with its default settings it
    walks that tree lowest key first, and that is the order taken here. *)
Definition rowid_scan (t : gmap Z SpotRow) : list SpotEntry :=
  merge_sort spot_id_le (map_to_list t).

(** [ORDER BY spot_id ASC] *)
Definition order_by_spot_id (l : list SpotEntry) : list SpotEntry :=
  merge_sort spot_id_le l.

(** [cursor.fetchone()] *)
Definition fetchone {A} (rows : list A) : option A := head rows.

(** [SELECT spot_id FROM ParkingSpots WHERE ... ORDER BY spot_id ASC LIMIT 1]
    followed by [fetchone()] and the read of [row['spot_id']]. *)
Definition select_first_spot_id (P : SpotRow → Prop) `{!∀ r, Decision (P r)}
    (t : gmap Z SpotRow) : option Z :=
  fst <$> fetchone (order_by_spot_id (filter (λ e, P e.2) (rowid_scan t))).

(** [UPDATE ParkingSpots SET is_occupied = v WHERE spot_id = i] *)
Definition set_is_occupied (v : Z) (r : SpotRow) : SpotRow :=
  mkSpot (floor r) (spot_type r) v.

Definition update_is_occupied (v i : Z) (t : gmap Z SpotRow) : gmap Z SpotRow :=
  alter (set_is_occupied v) i t.

(** sqlite3 passes a Python [int] to SQLite as a signed 64-bit integer and
    raises [OverflowError] for an [int] outside that range. *)
Definition fits_int64 (i : Z) : Prop := - 2 ^ 63 ≤ i < 2 ^ 63.

#[local] Instance fits_int64_dec i : Decision (fits_int64 i).
Proof. unfold fits_int64. apply _. Defined.

(** [INSERT INTO ParkingSpots ... VALUES (?, ?, ?, ?)]; an integer outside
    64 bits cannot be bound, and a key that is already present violates the
    primary key: either aborts the statement. *)
Definition insert_spot (row : Z * string * string * Z) (t : gmap Z SpotRow)
    : option (gmap Z SpotRow) :=
  let '(i, f, ty, occ) := row in
  if decide (fits_int64 i ∧ fits_int64 occ) then
    match t !! i with
    | Some _ => None
    | None => Some (<[i := mkSpot f ty occ]> t)
    end
  else None.

Definition insert_user (row : Z * string * Z) (t : gmap Z UserRow)
    : option (gmap Z UserRow) :=
  let '(i, ro, prem) := row in
  if decide (fits_int64 i ∧ fits_int64 prem) then
    match t !! i with
    | Some _ => None
    | None => Some (<[i := mkUser ro prem]> t)
    end
  else None.

(** [cursor.executemany(sql, rows)] *)
Fixpoint executemany {R T} (stmt : R → T → option T) (rows : list R) (t : T)
    : option T :=
  match rows with
  | [] => Some t
  | row :: rows' => stmt row t ≫= executemany stmt rows'
  end.

(** ** [init_db] *)

Definition spots_data : list (Z * string * string * Z) :=
  [ (1, "Parking 1", "Premium", 1);
    (2, "Parking 1", "Premium", 0);
    (3, "Parking 1", "Premium", 1);
    (4, "Parking 1", "Premium", 0);
    (5, "Parking 1", "Standard", 0);
    (6, "Parking 1", "Standard", 1);
    (7, "Parking 1", "Standard", 0);
    (8, "Parking 1", "Standard", 1);
    (9, "Parking 1", "Standard", 0);
    (10, "Parking 1", "Standard", 1);
    (11, "Parking 2", "Premium", 1);
    (12, "Parking 2", "Premium", 0) ]
  ++ ((λ i, (i, "Parking 2", "Standard", if decide (i `mod` 2 = 0) then 1 else 0))
        <$> seqZ 13 (21 - 13)).

Definition users_data : list (Z * string * Z) :=
  [ (101, "Teacher", 1);
    (102, "Student", 0);
    (103, "Premium Student", 1) ].

Definition init_db : option Database :=
  spots ← executemany insert_spot spots_data ∅;
  users ← executemany insert_user users_data ∅;
  Some (mkDb spots users).

(** ** [get_least_dense_floor] *)

(** [SUM(CASE WHEN is_occupied = 1 THEN 1 ELSE 0 END)] over a group. *)
Definition sum_occupied (group : list SpotEntry) : Z :=
  foldr Z.add 0 ((λ e, if decide (is_occupied e.2 = 1) then 1 else 0) <$> group).

(** [COUNT(spot_id)] over a group; the key is never NULL. *)
Definition count_spot_id (group : list SpotEntry) : Z :=
  Z.of_nat (length group).

(** The grouped query: one row [(floor, occupied_count, total_count)] for
    each floor that occurs in the table. *)
Definition floor_data (t : gmap Z SpotRow) : list (string * Z * Z) :=
  let rows := rowid_scan t in
  (λ f, let group := filter (λ e, floor e.2 = f) rows in
        (f, sum_occupied group, count_spot_id group))
    <$> remove_dups ((λ e, floor e.2) <$> rows).

(** Round [n / d], for [d > 0], to the nearest integer, ties to even. *)
Definition round_half_even (n d : Z) : Z :=
  let f := n / d in
  match 2 * (n `mod` d) ?= d with
  | Lt => f
  | Gt => f + 1
  | Eq => if Z.even f then f else f + 1
  end.

(** [2 ^ k] for [k >= 0], and 1 below. *)
Definition pow2 (k : Z) : Z := 2 ^ Z.max 0 k.

(** The [k] with [2^52 <= (n / d) * 2^k < 2^53], for [n, d > 0]: the
    scaling that leaves 53 significant bits before the point. *)
Definition scale_exponent (n d : Z) : Z :=
  let k0 := 52 + Z.log2 d - Z.log2 n in
  if decide (2 ^ 52 * d * pow2 (- k0) ≤ n * pow2 k0) then k0 else k0 + 1.

(** The double nearest to [n / d], for [n, d > 0]: the 53-bit significand
    is rounded half to even. *)
Definition double_pos (n d : Z) : Q :=
  let k := scale_exponent n d in
  let m := round_half_even (n * pow2 k) (d * pow2 (- k)) in
  Qmake (m * pow2 (- k)) (Z.to_pos (pow2 k)).

(** The double that Python holds for the exact quotient [q] of two
    integers: [a / b] is the correctly rounded quotient.  The exponent range
    of a double is left out: a quotient of two 64-bit counts is far inside
    it. *)
Definition double (q : Q) : Q :=
  match Qnum q with
  | 0 => 0%Q
  | Z.pos n => double_pos (Z.pos n) (Z.pos (Qden q))
  | Z.neg n => (- double_pos (Z.pos n) (Z.pos (Qden q)))%Q
  end.

(** [occupied / total if total > 0 else 1.0].  The quotient is kept exact,
    as a rational; the double that Python holds for it is its [double],
    taken where the code compares two densities. *)
Definition row_density (occupied total : Z) : Q :=
  if decide (total > 0) then inject_Z occupied / inject_Z total else 1%Q.

(** The loop that fills [density_map]. *)
Definition density_map (rows : list (string * Z * Z)) : gmap string Q :=
  foldl (λ m row, let '(f, occupied, total) := row in
                  <[f := row_density occupied total]> m) ∅ rows.

(** [density_map.get(floor, 1.0)] *)
Definition density_get (m : gmap string Q) (f : string) : Q :=
  default 1%Q (m !! f).

Definition density (t : gmap Z SpotRow) (f : string) : Q :=
  density_get (density_map (floor_data t)) f.

Definition get_least_dense_floor (t : gmap Z SpotRow) : string :=
  let density_map := density_map (floor_data t) in
  let least_dense_floor := "Parking 1" in
  let min_density := density_get density_map "Parking 1" in
  let p2_density := density_get density_map "Parking 2" in
  if Qlt_le_dec (double p2_density) (double min_density)
  then "Parking 2" else least_dense_floor.

(** ** Requests and responses *)

Inductive Body :=
| ErrorBody (error : string)
| AllocatedBody (allocated_spot_id : Z) (message : string)
| ReleasedBody (message : string)
| UnhandledErrorBody.

(** [jsonify(body), status]; a bare [jsonify(body)] has status 200.
    [UnhandledErrorBody] is the error page that Flask sends, with status
    500, when a handler raises. *)
Record Response := mkResp { body : Body; status : Z }.

(** The [user_id] / [spot_id] field of the request body as [data.get]
    returns it: [None] when the key is absent or null, otherwise the
    integer sent.  [if not field: return ... 400] lets the field through
    only when it is present and not zero. *)
Definition required (field : option Z) : option Z :=
  match field with
  | None => None
  | Some z => if decide (z = 0) then None else Some z
  end.

(** The responses of the two handlers. *)
Definition user_id_required : Response :=
  mkResp (ErrorBody "User ID is required") 400.
Definition invalid_user_id : Response :=
  mkResp (ErrorBody "Invalid User ID.") 404.
Definition allocated (i : Z) (message : string) : Response :=
  mkResp (AllocatedBody i message) 200.
Definition no_capacity : Response :=
  mkResp (ErrorBody "All spots are currently occupied.") 409.
Definition spot_id_required : Response :=
  mkResp (ErrorBody "Spot ID is required") 400.
Definition spot_not_found (i : Z) : Response :=
  mkResp (ErrorBody ("Spot ID " +:+ pretty i +:+ " does not exist.")) 404.
Definition already_free (i : Z) : Response :=
  mkResp (ErrorBody ("Spot " +:+ pretty i +:+ " is already free.")) 409.
Definition released (i : Z) : Response :=
  mkResp (ReleasedBody ("Spot " +:+ pretty i +:+ " released.")) 200.

(** An id outside 64 bits makes the first query of a handler raise
    [OverflowError].  [release_spot] catches it and answers with [str(e)];
    [allocate_spot] has no handler for it.  No key of a table is outside 64
    bits, so such an id is never found: the handlers below refuse it where
    the lookup finds no row. *)
Definition overflow_message : string :=
  "Python int too large to convert to SQLite INTEGER".
Definition release_overflow : Response :=
  mkResp (ErrorBody overflow_message) 500.
Definition allocate_unhandled : Response :=
  mkResp UnhandledErrorBody 500.

(** ** [allocate_spot] *)

Definition free_on (target_floor ty : string) (r : SpotRow) : Prop :=
  floor r = target_floor ∧ spot_type r = ty ∧ is_occupied r = 0.

Definition free_anywhere (ty : string) (r : SpotRow) : Prop :=
  spot_type r = ty ∧ is_occupied r = 0.

#[local] Instance free_on_dec f ty r : Decision (free_on f ty r).
Proof. unfold free_on. apply _. Defined.

#[local] Instance free_anywhere_dec ty r : Decision (free_anywhere ty r).
Proof. unfold free_anywhere. apply _. Defined.

(** The two locals that the search assigns. *)
Record Locals := mkLocals {
  allocated_spot_id : option Z;
  query_message : string
}.

Definition is_None {A} (o : option A) : bool :=
  match o with None => true | Some _ => false end.

(** The search of [allocate_spot], from the choice of the target floor
    to the last overflow query. *)
Definition search_spot (is_premium : Z) (t : gmap Z SpotRow) : Locals :=
  let s0 := mkLocals None "" in
  let target_floor := get_least_dense_floor t in
  let s1 :=
    if decide (is_premium = 1) then
      match select_first_spot_id (free_on target_floor "Premium") t with
      | Some i =>
          mkLocals (Some i)
            ("Allocated nearest Premium spot in " +:+ target_floor +:+ " (Least Dense).")
      | None => s0
      end
    else s0 in
  let s2 :=
    if is_None (allocated_spot_id s1) then
      match select_first_spot_id (free_on target_floor "Standard") t with
      | Some i =>
          mkLocals (Some i)
            (if decide (is_premium = 1)
             then "Premium spots in " +:+ target_floor +:+ " are full. Allocated nearest Standard spot."
             else "Allocated nearest Standard spot in " +:+ target_floor +:+ ".")
      | None => s1
      end
    else s1 in
  if is_None (allocated_spot_id s2) then
    let s3 :=
      if decide (is_premium = 1) then
        match select_first_spot_id (free_anywhere "Premium") t with
        | Some i =>
            mkLocals (Some i)
              "Least dense area full. Allocated nearest available Premium spot."
        | None => s2
        end
      else s2 in
    if is_None (allocated_spot_id s3) then
      match select_first_spot_id (free_anywhere "Standard") t with
      | Some i =>
          mkLocals (Some i)
            "Least dense area full. Allocated nearest available Standard spot."
      | None => s3
      end
    else s3
  else s2.

Definition allocate_spot (db : Database) (user_id : option Z)
    : Response * Database :=
  match required user_id with
  | None => (user_id_required, db)
  | Some uid =>
      match Users db !! uid with
      | None =>
          if decide (fits_int64 uid) then (invalid_user_id, db)
          else (allocate_unhandled, db)
      | Some user =>
          let s := search_spot (is_premium user) (ParkingSpots db) in
          match allocated_spot_id s with
          | Some i =>
              (allocated i (query_message s),
               mkDb (update_is_occupied 1 i (ParkingSpots db)) (Users db))
          | None => (no_capacity, db)
          end
      end
  end.

(** ** [release_spot] *)

Definition release_spot (db : Database) (spot_id : option Z)
    : Response * Database :=
  match required spot_id with
  | None => (spot_id_required, db)
  | Some i =>
      match ParkingSpots db !! i with
      | None =>
          if decide (fits_int64 i) then (spot_not_found i, db)
          else (release_overflow, db)
      | Some spot =>
          if decide (is_occupied spot = 0) then (already_free i, db)
          else
            (released i,
             mkDb (update_is_occupied 0 i (ParkingSpots db)) (Users db))
      end
  end.

(** ** [get_spots] *)

(** One dictionary of the JSON list that [get_spots] returns. *)
Record SpotDict := mkDict {
  d_spot_id : Z;
  d_floor : string;
  d_spot_type : string;
  d_is_occupied : Z
}.

Definition dict_of_row (e : SpotEntry) : SpotDict :=
  mkDict e.1 (floor e.2) (spot_type e.2) (is_occupied e.2).

(** [SELECT * FROM ParkingSpots], each row turned into a dictionary. *)
Definition get_spots (db : Database) : list SpotDict :=
  dict_of_row <$> rowid_scan (ParkingSpots db).

(** ** What the claims speak of *)

(** The database that [init_db] leaves behind. *)
Definition seed_db : Database := default (mkDb ∅ ∅) init_db.

(** The seed spots as the specification lists them: Lot A holds ids 1-4
    (Premium) and 5-10 (Standard), Lot B holds ids 11-12 (Premium) and
    13-20 (Standard, occupied exactly when the id is even). *)
Definition spec_seed_spots : list SpotDict :=
  zip_with (λ i occ, mkDict i "Parking 1" "Premium" occ)
           [1; 2; 3; 4] [1; 0; 1; 0]
  ++ zip_with (λ i occ, mkDict i "Parking 1" "Standard" occ)
              [5; 6; 7; 8; 9; 10] [0; 1; 0; 1; 0; 1]
  ++ zip_with (λ i occ, mkDict i "Parking 2" "Premium" occ) [11; 12] [1; 0]
  ++ ((λ i, mkDict i "Parking 2" "Standard" (if Z.even i then 1 else 0))
        <$> [13; 14; 15; 16; 17; 18; 19; 20]).

(** What the claims call the lowest-id free spot: [i] is a row that
    satisfies the filter, and no row with a smaller id does. *)
Definition lowest_match (P : SpotRow → Prop) (t : gmap Z SpotRow) (i : Z) : Prop :=
  (∃ r, t !! i = Some r ∧ P r) ∧ ∀ j r, t !! j = Some r → P r → i ≤ j.

Definition no_match (P : SpotRow → Prop) (t : gmap Z SpotRow) : Prop :=
  ∀ j r, t !! j = Some r → ¬ P r.

(** The rows of one floor, as the grouped query sees them. *)
Definition group_of (t : gmap Z SpotRow) (f : string) : list SpotEntry :=
  filter (λ e : SpotEntry, floor e.2 = f) (rowid_scan t).

(** The two counts of a floor, read off the table itself. *)
Definition total_count (t : gmap Z SpotRow) (f : string) : nat :=
  size (filter (λ kr : Z * SpotRow, floor kr.2 = f) t).

Definition occupied_count (t : gmap Z SpotRow) (f : string) : nat :=
  size (filter (λ kr : Z * SpotRow, floor kr.2 = f ∧ is_occupied kr.2 = 1) t).

(** The density of a floor as the specification defines it, read off the
    table: occupied spots over spots, and 1 for a floor without spots. *)
Definition table_density (t : gmap Z SpotRow) (f : string) : Q :=
  if decide (0 < total_count t f)%nat
  then inject_Z (Z.of_nat (occupied_count t f))
       / inject_Z (Z.of_nat (total_count t f))
  else 1%Q.

(** The priority cascade as the specification words it: each rule names
    the spot it yields and what the rules before it must have failed to
    find. *)
Inductive cascade (premium : Prop) (target : string) (t : gmap Z SpotRow)
    : option Z → Prop :=
| cascade_target_premium i :
    premium →
    lowest_match (free_on target "Premium") t i →
    cascade premium target t (Some i)
| cascade_target_standard i :
    (premium → no_match (free_on target "Premium") t) →
    lowest_match (free_on target "Standard") t i →
    cascade premium target t (Some i)
| cascade_any_premium i :
    premium →
    no_match (free_on target "Premium") t →
    no_match (free_on target "Standard") t →
    lowest_match (free_anywhere "Premium") t i →
    cascade premium target t (Some i)
| cascade_any_standard i :
    (premium → no_match (free_anywhere "Premium") t) →
    no_match (free_on target "Standard") t →
    lowest_match (free_anywhere "Standard") t i →
    cascade premium target t (Some i)
| cascade_no_capacity :
    (premium → no_match (free_anywhere "Premium") t) →
    no_match (free_anywhere "Standard") t →
    cascade premium target t None.

(** ** [get_user_info] *)

(** The body of a [get_user_info] response: the user's columns with
    ["success": True], or an error message with ["success": False]. *)
Inductive InfoBody :=
| InfoUser (user_id : Z) (role : string) (is_premium : Z)
| InfoError (error : string).

Record InfoResponse := mkInfo { info_body : InfoBody; info_status : Z }.

(** This handler tests the field with [is None], not by truth value, and
    only reads the database; its [except] answers an id outside 64 bits
    with [str(e)] and status 500. *)
Definition get_user_info (db : Database) (user_id : option Z) : InfoResponse :=
  match user_id with
  | None => mkInfo (InfoError "User ID is required") 400
  | Some uid =>
      match Users db !! uid with
      | Some user => mkInfo (InfoUser uid (role user) (is_premium user)) 200
      | None =>
          if decide (fits_int64 uid) then
            mkInfo (InfoError ("User ID " +:+ pretty uid +:+ " not found.")) 404
          else mkInfo (InfoError overflow_message) 500
      end
  end.

(** ** The two POST routes that write *)

(** A request to [/api/allocate] or to [/api/release], with the field of
    its body. *)
Inductive Request :=
| Allocate (user_id : option Z)
| Release (spot_id : option Z).

Definition serve (db : Database) (req : Request) : Response * Database :=
  match req with
  | Allocate user_id => allocate_spot db user_id
  | Release spot_id => release_spot db spot_id
  end.

(** The database after the requests have been served one after another. *)
Definition serve_all (reqs : list Request) (db : Database) : Database :=
  foldl (λ db req, (serve db req).2) db reqs.

(** ** Vocabulary of the further properties *)

(** The number of spots whose [is_occupied] is 0. *)
Definition free_count (t : gmap Z SpotRow) : nat :=
  size (filter (λ kr : Z * SpotRow, is_occupied kr.2 = 0) t).

(** Every [is_occupied] is 0 or 1. *)
Definition flags_binary (t : gmap Z SpotRow) : Prop :=
  ∀ i r, t !! i = Some r → is_occupied r = 0 ∨ is_occupied r = 1.

(** A listed spot with its [is_occupied] replaced when its id is [i]. *)
Definition with_flag (v i : Z) (d : SpotDict) : SpotDict :=
  if decide (d_spot_id d = i)
  then mkDict (d_spot_id d) (d_floor d) (d_spot_type d) v
  else d.

(** What never changes of a listed spot. *)
Definition spot_identity (d : SpotDict) : Z * string * string :=
  (d_spot_id d, d_floor d, d_spot_type d).

(** The rule that matched, with the message it leaves. *)
Inductive matched_rule (is_premium : Z) (target : string) (t : gmap Z SpotRow)
    (i : Z) : string → Prop :=
| rule_target_premium :
    is_premium = 1 →
    lowest_match (free_on target "Premium") t i →
    matched_rule is_premium target t i
      ("Allocated nearest Premium spot in " +:+ target +:+ " (Least Dense).")
| rule_target_standard_premium_user :
    is_premium = 1 →
    no_match (free_on target "Premium") t →
    lowest_match (free_on target "Standard") t i →
    matched_rule is_premium target t i
      ("Premium spots in " +:+ target +:+ " are full. Allocated nearest Standard spot.")
| rule_target_standard :
    is_premium ≠ 1 →
    lowest_match (free_on target "Standard") t i →
    matched_rule is_premium target t i
      ("Allocated nearest Standard spot in " +:+ target +:+ ".")
| rule_any_premium :
    is_premium = 1 →
    no_match (free_on target "Premium") t →
    no_match (free_on target "Standard") t →
    lowest_match (free_anywhere "Premium") t i →
    matched_rule is_premium target t i
      "Least dense area full. Allocated nearest available Premium spot."
| rule_any_standard :
    (is_premium = 1 → no_match (free_anywhere "Premium") t) →
    no_match (free_on target "Standard") t →
    lowest_match (free_anywhere "Standard") t i →
    matched_rule is_premium target t i
      "Least dense area full. Allocated nearest available Standard spot.".

(** The number of free Standard spots. *)
Definition free_standard_count (t : gmap Z SpotRow) : nat :=
  size (filter (λ kr : Z * SpotRow, free_anywhere "Standard" kr.2) t).

(** * Properties *)

(** ** The table scan and the ordered queries *)

#[local] Instance spot_id_le_total : Total spot_id_le.
Proof. intros a b. unfold spot_id_le. lia. Qed.

#[local] Instance spot_id_le_trans : Transitive spot_id_le.
Proof. intros a b c. unfold spot_id_le. lia. Qed.

Lemma elem_of_rowid_scan (t : gmap Z SpotRow) i r :
  (i, r) ∈ rowid_scan t ↔ t !! i = Some r.
Proof.
  unfold rowid_scan. rewrite merge_sort_Permutation.
  apply elem_of_map_to_list.
Qed.

Lemma rowid_scan_sorted (t : gmap Z SpotRow) :
  StronglySorted spot_id_le (rowid_scan t).
Proof. apply StronglySorted_merge_sort; apply _. Qed.

Lemma rowid_scan_NoDup_keys (t : gmap Z SpotRow) : NoDup (rowid_scan t).*1.
Proof.
  unfold rowid_scan. rewrite merge_sort_Permutation.
  apply NoDup_fst_map_to_list.
Qed.

Lemma length_rowid_scan (t : gmap Z SpotRow) :
  length (rowid_scan t) = size t.
Proof.
  unfold rowid_scan. rewrite merge_sort_Permutation.
  apply length_map_to_list.
Qed.

(** The head of a list sorted by key has the least key of the list. *)
Lemma head_order_by_spot_id (l : list SpotEntry) e :
  head (order_by_spot_id l) = Some e →
  e ∈ l ∧ ∀ e', e' ∈ l → e.1 ≤ e'.1.
Proof.
  unfold order_by_spot_id. intros Hhd.
  pose proof (StronglySorted_merge_sort spot_id_le l) as Hs.
  pose proof (merge_sort_Permutation spot_id_le l) as Hp.
  destruct (merge_sort spot_id_le l) as [|e0 l0]; simplify_eq/=.
  split.
  - rewrite <- Hp. apply list_elem_of_here.
  - intros e' He'. rewrite <- Hp in He'. inv Hs.
    apply elem_of_cons in He' as [->|He']; [lia|].
    match goal with H : Forall _ _ |- _ => rewrite Forall_forall in H; by apply H end.
Qed.

Lemma head_order_by_spot_id_None (l : list SpotEntry) :
  head (order_by_spot_id l) = None → l = [].
Proof.
  unfold order_by_spot_id. intros Hhd.
  apply Permutation_nil_r. rewrite <- (merge_sort_Permutation spot_id_le l).
  by destruct (merge_sort spot_id_le l).
Qed.

Section select_first.
Context (P : SpotRow → Prop) `{!∀ r, Decision (P r)}.

Lemma select_first_spot_id_Some t i :
  select_first_spot_id P t = Some i ↔ lowest_match P t i.
Proof.
  unfold select_first_spot_id, fetchone, lowest_match. split.
  - intros Hsel.
    destruct (head _) as [[i' r]|] eqn:Hhd; simplify_eq/=.
    apply head_order_by_spot_id in Hhd as [Hin Hmin].
    apply list_elem_of_filter in Hin as [HP Hin]. simpl in HP.
    apply elem_of_rowid_scan in Hin. split; [eauto|].
    intros j r' Hj HP'. apply (Hmin (j, r')).
    apply list_elem_of_filter. split; [done|]. by apply elem_of_rowid_scan.
  - intros [(r & Hi & HP) Hmin].
    assert ((i, r) ∈ filter (λ e : SpotEntry, P e.2) (rowid_scan t)) as Hin.
    { apply list_elem_of_filter. split; [done|]. by apply elem_of_rowid_scan. }
    destruct (head _) as [[i' r']|] eqn:Hhd; simpl.
    + apply head_order_by_spot_id in Hhd as [Hin' Hle].
      specialize (Hle _ Hin). simpl in Hle.
      apply list_elem_of_filter in Hin' as [HP' Hin']. simpl in HP'.
      apply elem_of_rowid_scan in Hin'.
      specialize (Hmin _ _ Hin' HP'). f_equal. lia.
    + apply head_order_by_spot_id_None in Hhd. rewrite Hhd in Hin.
      by apply elem_of_nil in Hin.
Qed.

Lemma select_first_spot_id_None t :
  select_first_spot_id P t = None ↔ no_match P t.
Proof.
  unfold select_first_spot_id, fetchone, no_match. split.
  - intros Hsel j r Hj HP.
    destruct (head _) as [e|] eqn:Hhd; simplify_eq/=.
    apply head_order_by_spot_id_None in Hhd.
    assert ((j, r) ∈ filter (λ e : SpotEntry, P e.2) (rowid_scan t)) as Hin.
    { apply list_elem_of_filter. split; [done|]. by apply elem_of_rowid_scan. }
    rewrite Hhd in Hin. by apply elem_of_nil in Hin.
  - intros Hno. destruct (head _) as [[i r]|] eqn:Hhd; [|done].
    apply head_order_by_spot_id in Hhd as [Hin _].
    apply list_elem_of_filter in Hin as [HP Hin].
    apply elem_of_rowid_scan in Hin. by destruct (Hno _ _ Hin).
Qed.

Lemma lowest_match_unique t i j :
  lowest_match P t i → lowest_match P t j → i = j.
Proof.
  intros [(r & Hi & HPi) Hmi] [(r' & Hj & HPj) Hmj].
  specialize (Hmi _ _ Hj HPj). specialize (Hmj _ _ Hi HPi). lia.
Qed.

Lemma lowest_match_no_match t i : lowest_match P t i → no_match P t → False.
Proof. intros [(r & Hi & HP) _] Hno. by apply (Hno _ _ Hi). Qed.
End select_first.

(** ** Density *)

Lemma size_filter_rowid_scan (P : Z * SpotRow → Prop) `{!∀ kr, Decision (P kr)}
    (t : gmap Z SpotRow) :
  size (filter P t) = length (filter P (rowid_scan t)).
Proof.
  rewrite <- length_map_to_list, map_filter_alt.
  rewrite map_to_list_to_map.
  - unfold rowid_scan. by rewrite merge_sort_Permutation.
  - eapply NoDup_fmap_fst.
    + intros i x y [_ Hx]%list_elem_of_filter [_ Hy]%list_elem_of_filter.
      apply elem_of_map_to_list in Hx, Hy. congruence.
    + apply NoDup_filter, NoDup_map_to_list.
Qed.

Lemma sum_occupied_length (l : list SpotEntry) :
  sum_occupied l =
  Z.of_nat (length (filter (λ e : SpotEntry, is_occupied e.2 = 1) l)).
Proof.
  unfold sum_occupied. induction l as [|e l IH]; [done|].
  rewrite filter_cons. csimpl. rewrite IH.
  destruct (decide (is_occupied e.2 = 1)); simpl; lia.
Qed.

Lemma count_group_of t f : count_spot_id (group_of t f) = Z.of_nat (total_count t f).
Proof.
  unfold count_spot_id, group_of, total_count.
  by rewrite size_filter_rowid_scan.
Qed.

Lemma sum_group_of t f : sum_occupied (group_of t f) = Z.of_nat (occupied_count t f).
Proof.
  rewrite sum_occupied_length. unfold group_of, occupied_count.
  rewrite size_filter_rowid_scan, list_filter_filter. do 2 f_equal.
  apply list_filter_iff. tauto.
Qed.

Lemma occupied_le_total t f : (occupied_count t f ≤ total_count t f)%nat.
Proof.
  unfold occupied_count, total_count. apply map_subseteq_size.
  apply map_filter_strong_subseteq_ext. intros i r [[Hf _] Hi]. done.
Qed.

Lemma total_count_pos t f :
  (0 < total_count t f)%nat ↔ ∃ i r, t !! i = Some r ∧ floor r = f.
Proof.
  unfold total_count. split.
  - intros Hpos.
    destruct (map_choose (filter (λ kr : Z * SpotRow, floor kr.2 = f) t))
      as (i & r & Hir).
    { intros Hempty. rewrite Hempty, map_size_empty in Hpos. lia. }
    apply map_lookup_filter_Some in Hir as [Hi Hf]. eauto.
  - intros (i & r & Hi & Hf).
    assert (filter (λ kr : Z * SpotRow, floor kr.2 = f) t !! i = Some r) as Hir.
    { by apply map_lookup_filter_Some. }
    destruct (size _) eqn:Hsz; [|lia].
    apply map_size_empty_inv in Hsz. rewrite Hsz in Hir.
    by rewrite lookup_empty in Hir.
Qed.

(** The loop over the grouped rows stores, for each floor of the result,
    the density of that floor's row. *)
Lemma density_map_foldl (o c : string → Z) (fs : list string) (m : gmap string Q) f :
  foldl (λ m row, let '(f, occupied, total) := row in
                  <[f := row_density occupied total]> m) m
        ((λ f, (f, o f, c f)) <$> fs) !! f
  = if decide (f ∈ fs) then Some (row_density (o f) (c f)) else m !! f.
Proof.
  revert m. induction fs as [|f0 fs IH]; intros m.
  - by rewrite decide_False by apply not_elem_of_nil.
  - rewrite fmap_cons. cbn [foldl]. rewrite IH. destruct (decide (f ∈ fs)) as [Hin|Hnin].
    + by rewrite decide_True by (by apply list_elem_of_further).
    + destruct (decide (f = f0)) as [->|Hne].
      * rewrite decide_True by apply list_elem_of_here.
        by rewrite lookup_insert_eq.
      * rewrite decide_False by (rewrite elem_of_cons; tauto).
        by rewrite lookup_insert_ne.
Qed.

Lemma density_unfold t f :
  density t f =
  if decide (0 < total_count t f)%nat
  then row_density (Z.of_nat (occupied_count t f)) (Z.of_nat (total_count t f))
  else 1%Q.
Proof.
  unfold density, density_get, density_map, floor_data.
  rewrite (density_map_foldl
             (λ f, sum_occupied (group_of t f))
             (λ f, count_spot_id (group_of t f))).
  rewrite lookup_empty, sum_group_of, count_group_of.
  destruct (decide (0 < total_count t f)%nat) as [Hpos|Hz].
  - rewrite decide_True; [done|].
    apply total_count_pos in Hpos as (i & r & Hi & Hf).
    apply elem_of_remove_dups, list_elem_of_fmap.
    exists (i, r). split; [done|]. by apply elem_of_rowid_scan.
  - rewrite decide_False; [done|].
    intros Hin. apply Hz, total_count_pos.
    apply elem_of_remove_dups, list_elem_of_fmap in Hin as ([i r] & Hf & Hin).
    apply elem_of_rowid_scan in Hin. eauto.
Qed.

Lemma quotient_bounds (o c : Z) :
  0 ≤ o ≤ c → 0 < c → (0 <= inject_Z o / inject_Z c <= 1)%Q.
Proof.
  intros Hoc Hc. destruct c as [|p|p]; try lia.
  unfold Qdiv, Qinv, Qmult, Qle, inject_Z. simpl. lia.
Qed.

Lemma density_bounds t f : (0 <= density t f <= 1)%Q.
Proof.
  rewrite density_unfold. case_decide as Hpos.
  - unfold row_density. rewrite decide_True by lia.
    pose proof (occupied_le_total t f). apply quotient_bounds; lia.
  - split; [discriminate|apply Qle_refl].
Qed.


(** ** Rounding to a double *)

Lemma round_half_even_scale (n d c : Z) :
  0 < d → 0 < c → round_half_even (n * c) (d * c) = round_half_even n d.
Proof.
  intros Hd Hc. unfold round_half_even.
  rewrite Z.div_mul_cancel_r by lia.
  rewrite Z.mul_mod_distr_r; try lia.
  rewrite Z.mul_assoc. by rewrite <- (Zmult_compare_compat_r _ _ c) by lia.
Qed.

Lemma round_half_even_exact (z d : Z) : 0 < d → round_half_even (z * d) d = z.
Proof.
  intros Hd. unfold round_half_even.
  rewrite Z.div_mul by lia. rewrite Z.mod_mul; try lia.
  destruct (Z.compare_spec (2 * 0) d); [lia|done|lia].
Qed.

Lemma round_half_even_mono (n n' d : Z) :
  0 < d → n ≤ n' → round_half_even n d ≤ round_half_even n' d.
Proof.
  intros Hd Hn. unfold round_half_even.
  pose proof (Z.div_mod n d ltac:(lia)) as Hdm.
  pose proof (Z.div_mod n' d ltac:(lia)) as Hdm'.
  pose proof (Z.mod_pos_bound n d Hd) as Hr.
  pose proof (Z.mod_pos_bound n' d Hd) as Hr'.
  pose proof (Z.div_le_mono n n' d Hd Hn) as Hf.
  destruct (decide (n / d = n' / d)) as [Heq|Hne].
  - rewrite <- Heq in *.
    destruct (Z.compare_spec (2 * (n `mod` d)) d);
      destruct (Z.compare_spec (2 * (n' `mod` d)) d);
      destruct (Z.even (n / d)); lia.
  - destruct (Z.compare_spec (2 * (n `mod` d)) d);
      destruct (Z.compare_spec (2 * (n' `mod` d)) d);
      destruct (Z.even (n / d)); destruct (Z.even (n' / d)); lia.
Qed.

Lemma round_half_even_lower (z n d : Z) :
  0 < d → z * d ≤ n → z ≤ round_half_even n d.
Proof.
  intros Hd Hn. rewrite <- (round_half_even_exact z d Hd).
  by apply round_half_even_mono.
Qed.

Lemma round_half_even_upper (z n d : Z) :
  0 < d → n ≤ z * d → round_half_even n d ≤ z.
Proof.
  intros Hd Hn. rewrite <- (round_half_even_exact z d Hd).
  by apply round_half_even_mono.
Qed.

Lemma pow2_nonneg k : 0 ≤ k → pow2 k = 2 ^ k.
Proof. intros Hk. unfold pow2. by rewrite Z.max_r. Qed.

Lemma pow2_neg k : k ≤ 0 → pow2 k = 1.
Proof. intros Hk. unfold pow2. by rewrite Z.max_l. Qed.

(** The scaling of a quotient in (0, 1]. *)
Lemma scale_exponent_spec (n d : Z) :
  0 < n → n ≤ d →
  52 ≤ scale_exponent n d
  ∧ 2 ^ 52 * d ≤ n * 2 ^ scale_exponent n d
  ∧ n * 2 ^ scale_exponent n d < 2 * 2 ^ 52 * d.
Proof.
  intros Hn Hnd. unfold scale_exponent.
  pose proof (Z.log2_nonneg n) as Ha0.
  pose proof (Z.log2_le_mono n d Hnd) as Hab.
  destruct (Z.log2_spec n Hn) as [Ha1 Ha2].
  destruct (Z.log2_spec d ltac:(lia)) as [Hb1 Hb2].
  rewrite Z.pow_succ_r in Ha2, Hb2 by lia.
  set (a := Z.log2 n) in *. set (b := Z.log2 d) in *.
  set (k0 := 52 + b - a).
  assert (2 ^ k0 * 2 ^ a = 2 ^ 52 * 2 ^ b) as Hprod.
  { rewrite <- !Z.pow_add_r by lia. f_equal. lia. }
  rewrite (pow2_nonneg k0), (pow2_neg (- k0)) by lia.
  assert (2 ^ (k0 + 1) = 2 * 2 ^ k0) as Hsucc.
  { rewrite Z.pow_add_r by lia. lia. }
  assert (0 < 2 ^ k0) as HK by (apply Z.pow_pos_nonneg; lia).
  set (C := 2 ^ 52) in *. assert (0 < C) as HC by done.
  set (K := 2 ^ k0) in *. set (A := 2 ^ a) in *. set (B := 2 ^ b) in *.
  case_decide as Hcmp.
  - split; [lia|]. fold K. split; nia.
  - split; [lia|]. rewrite Hsucc. split; nia.
Qed.

Lemma scale_exponent_unique (n d k k' : Z) :
  0 < n → 0 < d → 0 ≤ k → 0 ≤ k' →
  2 ^ 52 * d ≤ n * 2 ^ k → n * 2 ^ k' < 2 * 2 ^ 52 * d → k' ≤ k.
Proof.
  intros Hn Hd Hk Hk' Hlo Hhi.
  destruct (decide (k' ≤ k)) as [|Hgt]; [done|].
  assert (2 * 2 ^ k ≤ 2 ^ k') as Hpow.
  { rewrite <- Z.pow_succ_r by lia. apply Z.pow_le_mono_r; lia. }
  set (C := 2 ^ 52) in *. nia.
Qed.

(** What [double_pos] returns on a quotient in (0, 1]. *)
Lemma double_pos_unfold (n d : Z) :
  0 < n → n ≤ d →
  double_pos n d
  = Qmake (round_half_even (n * 2 ^ scale_exponent n d) d)
          (Z.to_pos (2 ^ scale_exponent n d)).
Proof.
  intros Hn Hnd. unfold double_pos.
  destruct (scale_exponent_spec n d Hn Hnd) as (Hk & _).
  rewrite (pow2_nonneg (scale_exponent n d)) by lia.
  rewrite (pow2_neg (- scale_exponent n d)) by lia.
  by rewrite !Z.mul_1_r.
Qed.

Lemma double_pos_mono (n1 d1 n2 d2 : Z) :
  0 < n1 → 0 < d1 → 0 < d2 → n2 ≤ d2 →
  n1 * d2 ≤ n2 * d1 →
  (double_pos n1 d1 <= double_pos n2 d2)%Q.
Proof.
  intros Hn1 Hd1 Hd2 Hn2 Hle.
  assert (0 < n2) as Hn2' by nia.
  assert (n1 ≤ d1) as Hn1' by nia.
  rewrite !double_pos_unfold by done.
  destruct (scale_exponent_spec n1 d1 Hn1 Hn1') as (Hk1 & Hlo1 & Hhi1).
  destruct (scale_exponent_spec n2 d2 Hn2' Hn2) as (Hk2 & Hlo2 & Hhi2).
  set (k1 := scale_exponent n1 d1) in *. set (k2 := scale_exponent n2 d2) in *.
  assert (0 < 2 ^ k1) as HP1 by (apply Z.pow_pos_nonneg; lia).
  assert (0 < 2 ^ k2) as HP2 by (apply Z.pow_pos_nonneg; lia).
  unfold Qle. simpl. rewrite !Z2Pos.id by done.
  (* the two significands over the common denominator d1 * d2 *)
  rewrite <- (round_half_even_scale (n1 * 2 ^ k1) d1 d2) by done.
  rewrite <- (round_half_even_scale (n2 * 2 ^ k2) d2 d1) by done.
  rewrite (Z.mul_comm d2 d1).
  set (D := d1 * d2). assert (0 < D) as HD by (unfold D; nia).
  assert (k2 ≤ k1) as Hk.
  { unfold D. set (C := 2 ^ 52) in *.
    apply (scale_exponent_unique (n1 * d2) (d1 * d2)); fold C; nia. }
  destruct (decide (k1 = k2)) as [Heq|Hne].
  - rewrite Heq in *. apply Z.mul_le_mono_nonneg_r; [lia|].
    apply round_half_even_mono; [done|]. nia.
  - assert (2 * 2 ^ k2 ≤ 2 ^ k1) as Hpow.
    { rewrite <- Z.pow_succ_r by lia. apply Z.pow_le_mono_r; lia. }
    assert (round_half_even (n1 * 2 ^ k1 * d2) D ≤ 2 * 2 ^ 52) as Hm1.
    { apply round_half_even_upper; [done|]. unfold D.
      set (C := 2 ^ 52) in *. nia. }
    assert (2 ^ 52 ≤ round_half_even (n2 * 2 ^ k2 * d1) D) as Hm2.
    { apply round_half_even_lower; [done|]. unfold D.
      set (C := 2 ^ 52) in *. nia. }
    set (C := 2 ^ 52) in *. assert (0 < C) as HC by done.
    set (m1 := round_half_even _ D) in *.
    set (m2 := round_half_even _ D) in *.
    nia.
Qed.

Lemma double_pos_nonneg (n d : Z) : 0 < n → n ≤ d → (0 <= double_pos n d)%Q.
Proof.
  intros Hn Hnd. rewrite double_pos_unfold by done.
  destruct (scale_exponent_spec n d Hn Hnd) as (Hk & Hlo & _).
  assert (0 < 2 ^ scale_exponent n d) by (apply Z.pow_pos_nonneg; lia).
  unfold Qle. simpl. rewrite Z.mul_1_r.
  apply (round_half_even_lower 0); [lia|]. nia.
Qed.

(** On quotients between 0 and 1, rounding to a double keeps the order. *)
Lemma double_mono (x y : Q) :
  (0 <= x)%Q → (x <= y)%Q → (y <= 1)%Q → (double x <= double y)%Q.
Proof.
  destruct x as [n1 d1], y as [n2 d2]. unfold Qle, double. simpl.
  intros Hx Hxy Hy.
  destruct n1 as [|n1|n1]; [|..|lia].
  - destruct n2 as [|n2|n2]; [done|..|lia].
    apply (double_pos_nonneg (Z.pos n2) (Z.pos d2)); lia.
  - destruct n2 as [|n2|n2]; [lia|..|lia].
    apply double_pos_mono; lia.
Qed.

Lemma double_proper (x y : Q) :
  (0 <= x)%Q → (x <= 1)%Q → (x == y)%Q → (double x == double y)%Q.
Proof.
  intros H0 H1 Heq. apply Qle_antisym.
  - apply double_mono; [done| |]; rewrite <- Heq; [apply Qle_refl|done].
  - apply double_mono; [by rewrite <- Heq| |done]. rewrite Heq. apply Qle_refl.
Qed.

Lemma double_1 : (double 1 == 1)%Q.
Proof. reflexivity. Qed.

Lemma double_le_1 (x : Q) : (0 <= x)%Q → (x <= 1)%Q → (double x <= 1)%Q.
Proof.
  intros H0 H1. rewrite <- double_1. by apply double_mono.
Qed.

(** A strict order between two doubles comes from a strict order between
    the quotients. *)
Lemma double_lt_inv (x y : Q) :
  (0 <= x)%Q → (x <= 1)%Q → (0 <= y)%Q → (y <= 1)%Q →
  (double x < double y)%Q → (x < y)%Q.
Proof.
  intros Hx0 Hx1 Hy0 Hy1 Hlt. apply Qnot_le_lt. intros Hle.
  apply (Qlt_not_le _ _ Hlt). by apply double_mono.
Qed.

Lemma round_half_even_error (n d : Z) :
  0 < d →
  2 * (round_half_even n d * d) ≤ 2 * n + d
  ∧ 2 * n ≤ 2 * (round_half_even n d * d) + d.
Proof.
  intros Hd. unfold round_half_even.
  pose proof (Z.div_mod n d ltac:(lia)) as Hdm.
  pose proof (Z.mod_pos_bound n d Hd) as Hr.
  destruct (Z.compare_spec (2 * (n `mod` d)) d);
    destruct (Z.even (n / d)); nia.
Qed.

(** Two quotients in (0, 1] whose denominators multiply to less than 2^52
    are far enough apart for their doubles to differ. *)
Lemma double_pos_lt (n1 d1 n2 d2 : Z) :
  0 < n1 → 0 < d1 → 0 < d2 → n2 ≤ d2 →
  n1 * d2 < n2 * d1 →
  d1 * d2 < 2 ^ 52 →
  (double_pos n1 d1 < double_pos n2 d2)%Q.
Proof.
  intros Hn1 Hd1 Hd2 Hn2 Hlt Hsmall.
  assert (0 < n2) as Hn2' by nia.
  assert (n1 ≤ d1) as Hn1' by nia.
  rewrite !double_pos_unfold by done.
  destruct (scale_exponent_spec n1 d1 Hn1 Hn1') as (Hk1 & Hlo1 & Hhi1).
  destruct (scale_exponent_spec n2 d2 Hn2' Hn2) as (Hk2 & Hlo2 & Hhi2).
  set (k1 := scale_exponent n1 d1) in *. set (k2 := scale_exponent n2 d2) in *.
  assert (0 < 2 ^ k1) as HP1 by (apply Z.pow_pos_nonneg; lia).
  assert (0 < 2 ^ k2) as HP2 by (apply Z.pow_pos_nonneg; lia).
  assert (2 ^ 52 ≤ 2 ^ k2) as HP2' by (apply Z.pow_le_mono_r; lia).
  unfold Qlt. simpl. rewrite !Z2Pos.id by done.
  assert (k2 ≤ k1) as Hk.
  { set (C := 2 ^ 52) in *.
    apply (scale_exponent_unique (n1 * d2) (d1 * d2)); fold C; nia. }
  assert (2 ^ k2 ≤ 2 ^ k1) as Hpow by (apply Z.pow_le_mono_r; lia).
  destruct (round_half_even_error (n1 * 2 ^ k1) d1 Hd1) as [He1 _].
  destruct (round_half_even_error (n2 * 2 ^ k2) d2 Hd2) as [_ He2].
  set (m1 := round_half_even (n1 * 2 ^ k1) d1) in *.
  set (m2 := round_half_even (n2 * 2 ^ k2) d2) in *.
  set (P1 := 2 ^ k1) in *. set (P2 := 2 ^ k2) in *. set (C := 2 ^ 52) in *.
  set (D := d1 * d2) in *.
  assert (0 < D) as HD by (unfold D; nia).
  (* both sides over the denominator 2 * D *)
  assert (2 * (m1 * D) ≤ 2 * (n1 * d2) * P1 + D) as Ha by (unfold D; nia).
  assert (2 * (n2 * d1) * P2 ≤ 2 * (m2 * D) + D) as Hb by (unfold D; nia).
  assert (n1 * d2 + 1 ≤ n2 * d1) as Hgap by lia.
  set (N1 := n1 * d2) in *. set (N2 := n2 * d1) in *.
  assert (D * (P1 + P2) < 2 * (P1 * P2)) as Hroom by nia.
  assert (2 * (m1 * D) * P2 < 2 * (m2 * D) * P1) as Hfinal.
  { apply Z.le_lt_trans with ((2 * N1 * P1 + D) * P2); [nia|].
    apply Z.lt_le_trans with ((2 * N2 * P2 - D) * P1); [|nia].
    nia. }
  nia.
Qed.

Lemma double_lt_small (x y : Q) :
  (0 <= x)%Q → (x < y)%Q → (y <= 1)%Q →
  QDen x * QDen y < 2 ^ 52 →
  (double x < double y)%Q.
Proof.
  destruct x as [n1 d1], y as [n2 d2]. unfold Qle, Qlt. simpl.
  intros Hx Hxy Hy Hsmall. unfold double. simpl.
  destruct n1 as [|n1|n1]; [|..|lia].
  - destruct n2 as [|n2|n2]; [lia|..|lia].
    rewrite double_pos_unfold by lia.
    destruct (scale_exponent_spec (Z.pos n2) (Z.pos d2)) as (Hk & Hlo & _);
      [lia..|].
    assert (0 < 2 ^ scale_exponent (Z.pos n2) (Z.pos d2))
      by (apply Z.pow_pos_nonneg; lia).
    unfold Qlt. simpl. rewrite Z.mul_1_r.
    apply Z.lt_le_trans with 1; [lia|].
    apply (round_half_even_lower 1); [lia|]. nia.
  - destruct n2 as [|n2|n2]; [lia|..|lia].
    apply double_pos_lt; lia.
Qed.

Lemma target_floor_unfold t :
  get_least_dense_floor t =
  if Qlt_le_dec (double (density t "Parking 2")) (double (density t "Parking 1"))
  then "Parking 2" else "Parking 1".
Proof. reflexivity. Qed.

Lemma density_table t f : density t f = table_density t f.
Proof.
  rewrite density_unfold. unfold table_density. case_decide; [|done].
  unfold row_density. by rewrite decide_True by lia.
Qed.

Lemma double_density_le_1 t f : (double (density t f) <= 1)%Q.
Proof. apply double_le_1; apply density_bounds. Qed.

(** ** The cascade *)

Lemma free_on_anywhere f ty r : free_on f ty r → free_anywhere ty r.
Proof. unfold free_on, free_anywhere. tauto. Qed.

Lemma no_match_anywhere_on f ty t :
  no_match (free_anywhere ty) t → no_match (free_on f ty) t.
Proof. intros Hno j r Hj Hfree. eapply Hno; eauto using free_on_anywhere. Qed.

Lemma lowest_match_free_on f ty t i :
  lowest_match (free_on f ty) t i →
  ∃ r, t !! i = Some r ∧ floor r = f ∧ spot_type r = ty ∧ is_occupied r = 0.
Proof. intros [(r & Hi & Hf & Hty & Hocc) _]. eauto 10. Qed.

Lemma lowest_match_free_anywhere ty t i :
  lowest_match (free_anywhere ty) t i →
  ∃ r, t !! i = Some r ∧ spot_type r = ty ∧ is_occupied r = 0.
Proof. intros [(r & Hi & Hty & Hocc) _]. eauto 10. Qed.

(** Two rules never disagree: whatever the cascade yields, it yields only
    that. *)
Ltac cascade_clash :=
  match goal with
  | Hl : lowest_match ?P ?t _, Hn : no_match ?P ?t |- _ =>
      destruct (lowest_match_no_match P t _ Hl Hn)
  | Hl : lowest_match (free_on ?f ?ty) ?t _,
    Hn : no_match (free_anywhere ?ty) ?t |- _ =>
      destruct (lowest_match_no_match _ t _ Hl (no_match_anywhere_on f ty t Hn))
  | Hp : ?premium, Hn : ?premium → no_match _ _ |- _ =>
      specialize (Hn Hp); cascade_clash
  end.

Lemma cascade_functional premium target t o o' :
  cascade premium target t o → cascade premium target t o' → o = o'.
Proof.
  destruct 1; inversion 1; subst; try done;
    try (f_equal; by eapply lowest_match_unique);
    cascade_clash.
Qed.

Lemma cascade_Some_free premium target t i :
  cascade premium target t (Some i) →
  ∃ r, t !! i = Some r ∧ is_occupied r = 0.
Proof.
  inversion 1; subst;
    match goal with
    | H : lowest_match (free_on _ _) _ _ |- _ =>
        apply lowest_match_free_on in H as (r & ? & ? & ? & ?)
    | H : lowest_match (free_anywhere _) _ _ |- _ =>
        apply lowest_match_free_anywhere in H as (r & ? & ? & ?)
    end; eauto.
Qed.

(** The search of [allocate_spot] yields what the cascade yields. *)
Lemma search_spot_cascade is_premium t :
  cascade (is_premium = 1) (get_least_dense_floor t) t
          (allocated_spot_id (search_spot is_premium t)).
Proof.
  unfold search_spot.
  set (target := get_least_dense_floor t).
  destruct (decide (is_premium = 1)) as [Hprem|Hstd].
  - destruct (select_first_spot_id (free_on target "Premium") t)
      as [i1|] eqn:H1; simpl.
    { apply cascade_target_premium; [done|].
      by apply select_first_spot_id_Some in H1. }
    apply select_first_spot_id_None in H1.
    destruct (select_first_spot_id (free_on target "Standard") t)
      as [i2|] eqn:H2; simpl.
    { apply cascade_target_standard; [done|].
      by apply select_first_spot_id_Some in H2. }
    apply select_first_spot_id_None in H2.
    destruct (select_first_spot_id (free_anywhere "Premium") t)
      as [i3|] eqn:H3; simpl.
    { apply cascade_any_premium; try done.
      by apply select_first_spot_id_Some in H3. }
    apply select_first_spot_id_None in H3.
    destruct (select_first_spot_id (free_anywhere "Standard") t)
      as [i4|] eqn:H4; simpl.
    { apply cascade_any_standard; try done.
      by apply select_first_spot_id_Some in H4. }
    apply select_first_spot_id_None in H4.
    by apply cascade_no_capacity.
  - simpl.
    destruct (select_first_spot_id (free_on target "Standard") t)
      as [i2|] eqn:H2; simpl.
    { apply cascade_target_standard; [done|].
      by apply select_first_spot_id_Some in H2. }
    apply select_first_spot_id_None in H2.
    destruct (select_first_spot_id (free_anywhere "Standard") t)
      as [i4|] eqn:H4; simpl.
    { apply cascade_any_standard; try done.
      by apply select_first_spot_id_Some in H4. }
    apply select_first_spot_id_None in H4.
    by apply cascade_no_capacity.
Qed.

Lemma required_nonzero i : i ≠ 0 → required (Some i) = Some i.
Proof. intros Hi. unfold required. by rewrite decide_False. Qed.

Lemma required_Some field i : required field = Some i → field = Some i ∧ i ≠ 0.
Proof.
  unfold required. destruct field as [z|]; [|done].
  destruct (decide (z = 0)); naive_solver.
Qed.

(** [allocate_spot] for a user that the table knows. *)
Lemma allocate_spot_known db uid user :
  uid ≠ 0 → Users db !! uid = Some user →
  allocate_spot db (Some uid) =
  let s := search_spot (is_premium user) (ParkingSpots db) in
  match allocated_spot_id s with
  | Some i =>
      (allocated i (query_message s),
       mkDb (update_is_occupied 1 i (ParkingSpots db)) (Users db))
  | None => (no_capacity, db)
  end.
Proof.
  intros Huid Huser. unfold allocate_spot.
  by rewrite required_nonzero, Huser.
Qed.

(** ** The seed database *)

Lemma init_db_seed : init_db = Some seed_db.
Proof. reflexivity. Qed.

(** ** The handlers, case by case *)

Lemma allocate_spot_response db uid user :
  uid ≠ 0 → Users db !! uid = Some user →
  ∀ o, cascade (is_premium user = 1)
               (get_least_dense_floor (ParkingSpots db)) (ParkingSpots db) o →
       match o with
       | Some i => ∃ msg, (allocate_spot db (Some uid)).1 = allocated i msg
       | None => (allocate_spot db (Some uid)).1 = no_capacity
       end.
Proof.
  intros Huid Huser o Ho. rewrite (allocate_spot_known _ _ _ Huid Huser).
  pose proof (search_spot_cascade (is_premium user) (ParkingSpots db)) as Hc.
  rewrite <- (cascade_functional _ _ _ _ _ Hc Ho). cbv zeta.
  destruct (allocated_spot_id _); simpl; eauto.
Qed.

Lemma release_spot_missing db i :
  i ≠ 0 → fits_int64 i → ParkingSpots db !! i = None →
  release_spot db (Some i) = (spot_not_found i, db).
Proof.
  intros Hi Hfits Hnone. unfold release_spot.
  by rewrite (required_nonzero _ Hi), Hnone, decide_True.
Qed.

Lemma release_spot_overflow db i :
  i ≠ 0 → ¬ fits_int64 i → ParkingSpots db !! i = None →
  release_spot db (Some i) = (release_overflow, db).
Proof.
  intros Hi Hfits Hnone. unfold release_spot.
  by rewrite (required_nonzero _ Hi), Hnone, decide_False.
Qed.

Lemma release_spot_free db i r :
  i ≠ 0 → ParkingSpots db !! i = Some r → is_occupied r = 0 →
  release_spot db (Some i) = (already_free i, db).
Proof.
  intros Hi Hr Hfree. unfold release_spot.
  rewrite (required_nonzero _ Hi), Hr. by destruct (decide (is_occupied r = 0)).
Qed.

Lemma release_spot_occupied db i r :
  i ≠ 0 → ParkingSpots db !! i = Some r → is_occupied r ≠ 0 →
  release_spot db (Some i)
  = (released i, mkDb (update_is_occupied 0 i (ParkingSpots db)) (Users db)).
Proof.
  intros Hi Hr Hocc. unfold release_spot.
  rewrite (required_nonzero _ Hi), Hr. by destruct (decide (is_occupied r = 0)).
Qed.

Lemma lookup_update_is_occupied v i (t : gmap Z SpotRow) r :
  t !! i = Some r →
  update_is_occupied v i t !! i = Some (mkSpot (floor r) (spot_type r) v).
Proof. intros Hr. unfold update_is_occupied. by rewrite lookup_alter_eq, Hr. Qed.

Lemma lookup_update_is_occupied_ne v i j (t : gmap Z SpotRow) :
  j ≠ i → update_is_occupied v i t !! j = t !! j.
Proof. intros Hj. unfold update_is_occupied. by rewrite lookup_alter_ne. Qed.

(** * The claims *)

(** C1: for every user record and every table, the search of
    [allocate_spot] finds exactly what the priority cascade prescribes on
    the target floor: the lowest-id free Premium spot of the target floor
    for a premium user; else the lowest-id free Standard spot of the target
    floor; else, for a premium user, the lowest-id free Premium spot of any
    floor; else the lowest-id free Standard spot of any floor; else nothing.
    The first rule that yields a spot fixes the result.  For a user the
    handler knows, it allocates spot [i] if and only if the cascade yields
    [i], and answers "no capacity" if and only if the cascade yields
    nothing. *)
Theorem allocate_follows_cascade db user :
  (∀ o, cascade (is_premium user = 1)
                (get_least_dense_floor (ParkingSpots db)) (ParkingSpots db) o
        ↔ allocated_spot_id (search_spot (is_premium user) (ParkingSpots db)) = o)
  ∧ (∀ uid, uid ≠ 0 → Users db !! uid = Some user →
       (∀ i, cascade (is_premium user = 1)
                     (get_least_dense_floor (ParkingSpots db)) (ParkingSpots db)
                     (Some i)
             ↔ ∃ msg, (allocate_spot db (Some uid)).1 = allocated i msg)
       ∧ (cascade (is_premium user = 1)
                  (get_least_dense_floor (ParkingSpots db)) (ParkingSpots db) None
          ↔ (allocate_spot db (Some uid)).1 = no_capacity)).
Proof.
  pose proof (search_spot_cascade (is_premium user) (ParkingSpots db)) as Hc.
  split.
  - intros o. split; [|by intros <-].
    intros Ho. by eapply cascade_functional.
  - intros uid Huid Huser. rewrite (allocate_spot_known _ _ _ Huid Huser).
    cbv zeta.
    destruct (allocated_spot_id (search_spot (is_premium user) (ParkingSpots db)))
      as [i0|]; simpl; split.
    + intros i. split.
      * intros Hi. pose proof (cascade_functional _ _ _ _ _ Hc Hi). naive_solver.
      * intros [msg [= ->]]. done.
    + split; [|done]. intros Hn.
      by pose proof (cascade_functional _ _ _ _ _ Hc Hn).
    + intros i. split.
      * intros Hi. by pose proof (cascade_functional _ _ _ _ _ Hc Hi).
      * by intros [msg ?].
    + done.
Qed.

Lemma allocate_follows_cascade_witness :
  102 ≠ 0 ∧ Users seed_db !! 102 = Some (mkUser "Student" 0) ∧
  (cascade (0 = 1) (get_least_dense_floor (ParkingSpots seed_db))
           (ParkingSpots seed_db) (Some 5)
   ↔ ∃ msg, (allocate_spot seed_db (Some 102)).1 = allocated 5 msg).
Proof.
  split; [lia|]. split; [reflexivity|].
  apply (proj1 (proj2 (allocate_follows_cascade seed_db (mkUser "Student" 0))
                  102 ltac:(lia) eq_refl) 5).
Defined.

(** C2: with the density of a floor read off the table (occupied spots
    over spots, 1 for a floor without spots) and held as a double, the
    target floor is "Parking 2" exactly when the density of "Parking 2" is
    strictly less than the density of "Parking 1", and "Parking 1"
    otherwise.  In exact terms: unless the quotient of "Parking 2" is
    strictly less than the quotient of "Parking 1", the target is
    "Parking 1"; in particular it is "Parking 1" when the two are equal. *)
Theorem target_floor_tie_to_parking_1 (t : gmap Z SpotRow) :
  (get_least_dense_floor t = "Parking 2"
   ↔ (double (table_density t "Parking 2")
      < double (table_density t "Parking 1"))%Q)
  ∧ (get_least_dense_floor t = "Parking 1"
     ↔ ¬ (double (table_density t "Parking 2")
          < double (table_density t "Parking 1"))%Q)
  ∧ (¬ (table_density t "Parking 2" < table_density t "Parking 1")%Q →
     get_least_dense_floor t = "Parking 1")
  ∧ ((table_density t "Parking 2" == table_density t "Parking 1")%Q →
     get_least_dense_floor t = "Parking 1").
Proof.
  pose proof (density_bounds t "Parking 1") as [H1lo H1hi].
  pose proof (density_bounds t "Parking 2") as [H2lo H2hi].
  rewrite target_floor_unfold. rewrite !density_table in *.
  assert (¬ (table_density t "Parking 2" < table_density t "Parking 1")%Q →
          ¬ (double (table_density t "Parking 2")
             < double (table_density t "Parking 1"))%Q) as Hexact.
  { intros Hnlt Hlt. apply Hnlt. by apply double_lt_inv. }
  destruct (Qlt_le_dec _ _) as [Hlt|Hle].
  - split; [done|]. split; [done|]. split.
    + intros Hnlt. by destruct (Hexact Hnlt).
    + intros Heq. destruct (Hexact ltac:(rewrite Heq; apply Qlt_irrefl) Hlt).
  - apply Qle_not_lt in Hle. split; [done|]. split; done.
Qed.

Lemma target_floor_tie_to_parking_1_witness :
  (table_density (ParkingSpots seed_db) "Parking 2"
   == table_density (ParkingSpots seed_db) "Parking 1")%Q
  ∧ get_least_dense_floor (ParkingSpots seed_db) = "Parking 1".
Proof.
  assert (table_density (ParkingSpots seed_db) "Parking 2"
          == table_density (ParkingSpots seed_db) "Parking 1")%Q as Heq
    by reflexivity.
  split; [exact Heq|].
  exact (proj2 (proj2 (proj2
           (target_floor_tie_to_parking_1 (ParkingSpots seed_db)))) Heq).
Defined.

(** C3: the density of a floor with at least one spot is its number of
    occupied spots divided by its number of spots; every density lies
    between 0 and 1; a floor without spots has density 1, so it is never
    strictly less dense than another floor, and "Parking 2" without spots
    is never the target. *)
Theorem density_is_occupied_fraction (t : gmap Z SpotRow) (f : string) :
  ((0 < total_count t f)%nat →
     (density t f ==
      inject_Z (Z.of_nat (occupied_count t f))
      / inject_Z (Z.of_nat (total_count t f)))%Q)
  ∧ (0 <= density t f <= 1)%Q
  ∧ (total_count t f = 0%nat →
       density t f = 1%Q ∧ ∀ g, ¬ (density t f < density t g)%Q)
  ∧ (total_count t "Parking 2" = 0%nat →
       get_least_dense_floor t = "Parking 1").
Proof.
  assert (∀ f', total_count t f' = 0%nat → density t f' = 1%Q) as Hempty.
  { intros f' Hz. rewrite density_unfold, decide_False; [done|lia]. }
  split; [|split; [|split]].
  - intros Hpos. rewrite density_unfold, decide_True by done.
    unfold row_density. rewrite decide_True by lia. reflexivity.
  - apply density_bounds.
  - intros Hz. split; [by apply Hempty|].
    intros g Hlt. rewrite (Hempty _ Hz) in Hlt.
    by apply Qlt_not_le in Hlt; destruct Hlt; apply density_bounds.
  - intros Hz. rewrite target_floor_unfold, (Hempty _ Hz).
    destruct (Qlt_le_dec _ _) as [Hlt|]; [|done].
    apply Qlt_not_le in Hlt. destruct Hlt.
    apply Qle_trans with 1%Q; [apply double_density_le_1|].
    rewrite double_1. apply Qle_refl.
Qed.

Lemma density_is_occupied_fraction_witness :
  (0 < total_count (ParkingSpots seed_db) "Parking 1")%nat
  ∧ (density (ParkingSpots seed_db) "Parking 1" == inject_Z 5 / inject_Z 10)%Q
  ∧ total_count (ParkingSpots seed_db) "Parking 3" = 0%nat
  ∧ density (ParkingSpots seed_db) "Parking 3" = 1%Q.
Proof.
  assert (0 < total_count (ParkingSpots seed_db) "Parking 1")%nat as Hpos
    by (vm_compute; lia).
  assert (total_count (ParkingSpots seed_db) "Parking 3" = 0%nat) as Hz
    by reflexivity.
  pose proof (density_is_occupied_fraction (ParkingSpots seed_db) "Parking 1")
    as [Hq _].
  pose proof (density_is_occupied_fraction (ParkingSpots seed_db) "Parking 3")
    as (_ & _ & H3 & _).
  exact (conj Hpos (conj (Hq Hpos) (conj Hz (proj1 (H3 Hz))))).
Defined.

(** C4: for a known user, [allocate_spot] either succeeds, turning exactly
    one spot from free ([is_occupied = 0]) to occupied ([is_occupied = 1])
    and returning its id, every other spot, the other columns of that spot
    and the users staying as they were; or it answers "no capacity" and
    leaves the database as it was. *)
Theorem allocate_spot_marks_one_or_none db uid user :
  uid ≠ 0 →
  Users db !! uid = Some user →
  (∃ i r msg,
      (allocate_spot db (Some uid)).1 = allocated i msg
      ∧ ParkingSpots db !! i = Some r
      ∧ is_occupied r = 0
      ∧ ParkingSpots (allocate_spot db (Some uid)).2 !! i
        = Some (mkSpot (floor r) (spot_type r) 1)
      ∧ (∀ j, j ≠ i →
           ParkingSpots (allocate_spot db (Some uid)).2 !! j
           = ParkingSpots db !! j)
      ∧ Users (allocate_spot db (Some uid)).2 = Users db)
  ∨ ((allocate_spot db (Some uid)).1 = no_capacity
     ∧ (allocate_spot db (Some uid)).2 = db).
Proof.
  intros Huid Huser. rewrite (allocate_spot_known _ _ _ Huid Huser).
  pose proof (search_spot_cascade (is_premium user) (ParkingSpots db)) as Hc.
  cbv zeta.
  destruct (allocated_spot_id (search_spot (is_premium user) (ParkingSpots db)))
    as [i|]; simpl; [left|by right].
  apply cascade_Some_free in Hc as (r & Hi & Hfree).
  exists i, r, (query_message (search_spot (is_premium user) (ParkingSpots db))).
  repeat split; try done.
  - by apply lookup_update_is_occupied.
  - intros j Hj. by apply lookup_update_is_occupied_ne.
Qed.

Lemma allocate_spot_marks_one_or_none_witness :
  102 ≠ 0 ∧ Users seed_db !! 102 = Some (mkUser "Student" 0) ∧
  ((∃ i r msg,
      (allocate_spot seed_db (Some 102)).1 = allocated i msg
      ∧ ParkingSpots seed_db !! i = Some r
      ∧ is_occupied r = 0
      ∧ ParkingSpots (allocate_spot seed_db (Some 102)).2 !! i
        = Some (mkSpot (floor r) (spot_type r) 1)
      ∧ (∀ j, j ≠ i →
           ParkingSpots (allocate_spot seed_db (Some 102)).2 !! j
           = ParkingSpots seed_db !! j)
      ∧ Users (allocate_spot seed_db (Some 102)).2 = Users seed_db)
   ∨ ((allocate_spot seed_db (Some 102)).1 = no_capacity
      ∧ (allocate_spot seed_db (Some 102)).2 = seed_db)).
Proof.
  split; [lia|]. split; [reflexivity|].
  apply (allocate_spot_marks_one_or_none seed_db 102 (mkUser "Student" 0));
    [lia|reflexivity].
Defined.

(** C5, for an integer spot id other than 0 that fits 64 bits:
    [release_spot] answers "does not exist" when no spot has the id,
    "already free" when the spot's [is_occupied] is 0, and otherwise sets
    [is_occupied] to 0 and succeeds; so releasing an occupied spot twice
    succeeds and then answers "already free", the spot being free after the
    first call. *)
Theorem release_spot_outcomes db i :
  i ≠ 0 →
  fits_int64 i →
  (ParkingSpots db !! i = None →
     release_spot db (Some i) = (spot_not_found i, db))
  ∧ (∀ r, ParkingSpots db !! i = Some r → is_occupied r = 0 →
       release_spot db (Some i) = (already_free i, db))
  ∧ (∀ r, ParkingSpots db !! i = Some r → is_occupied r ≠ 0 →
       (release_spot db (Some i)).1 = released i
       ∧ ParkingSpots (release_spot db (Some i)).2 !! i
         = Some (mkSpot (floor r) (spot_type r) 0)
       ∧ release_spot (release_spot db (Some i)).2 (Some i)
         = (already_free i, (release_spot db (Some i)).2)).
Proof.
  intros Hi Hfits. split; [|split].
  - by apply release_spot_missing.
  - intros r. by apply release_spot_free.
  - intros r Hr Hocc. rewrite (release_spot_occupied _ _ _ Hi Hr Hocc). simpl.
    pose proof (lookup_update_is_occupied 0 _ _ _ Hr) as Hnew.
    split; [done|]. split; [done|].
    by eapply release_spot_free.
Qed.

Lemma release_spot_outcomes_witness :
  1 ≠ 0
  ∧ fits_int64 1
  ∧ ParkingSpots seed_db !! 1 = Some (mkSpot "Parking 1" "Premium" 1)
  ∧ (release_spot seed_db (Some 1)).1 = released 1
  ∧ ParkingSpots (release_spot seed_db (Some 1)).2 !! 1
    = Some (mkSpot "Parking 1" "Premium" 0)
  ∧ release_spot (release_spot seed_db (Some 1)).2 (Some 1)
    = (already_free 1, (release_spot seed_db (Some 1)).2).
Proof.
  assert (1 ≠ 0) as Hne by lia.
  assert (fits_int64 1) as Hfits by (unfold fits_int64; lia).
  split; [exact Hne|]. split; [exact Hfits|]. split; [reflexivity|].
  apply (proj2 (proj2 (release_spot_outcomes seed_db 1 Hne Hfits))
           (mkSpot "Parking 1" "Premium" 1)); [reflexivity|simpl; lia].
Defined.

(** Two spot ids for which the seed table has no spot and the answer is not
    "does not exist": 0 fails the presence check and is answered "Spot ID is
    required"; 2^63 cannot be bound and is answered with the overflow
    error. *)
Lemma release_spot_not_always_spot_not_found :
  (ParkingSpots seed_db !! 0 = None
   ∧ release_spot seed_db (Some 0) = (spot_id_required, seed_db)
   ∧ release_spot seed_db (Some 0) ≠ (spot_not_found 0, seed_db))
  ∧ (ParkingSpots seed_db !! (2 ^ 63) = None
     ∧ release_spot seed_db (Some (2 ^ 63)) = (release_overflow, seed_db)
     ∧ release_spot seed_db (Some (2 ^ 63))
       ≠ (spot_not_found (2 ^ 63), seed_db)).
Proof.
  split.
  - split; [reflexivity|]. split; [reflexivity|]. discriminate.
  - assert (release_spot seed_db (Some (2 ^ 63)) = (release_overflow, seed_db))
      as H by reflexivity.
    split; [reflexivity|]. split; [exact H|]. rewrite H. discriminate.
Qed.

(** C6: when the target floor has a free Premium spot, whatever spot is
    allocated to a premium user is the lowest-id free Premium spot of the
    target floor, hence never a Standard spot of the target floor; and a
    premium user whose id passes the presence check is indeed allocated a
    spot. *)
Theorem premium_user_gets_target_premium db uid user :
  Users db !! uid = Some user →
  is_premium user = 1 →
  (∃ j r, ParkingSpots db !! j = Some r
          ∧ free_on (get_least_dense_floor (ParkingSpots db)) "Premium" r) →
  (∀ i msg, (allocate_spot db (Some uid)).1 = allocated i msg →
     lowest_match (free_on (get_least_dense_floor (ParkingSpots db)) "Premium")
                  (ParkingSpots db) i
     ∧ ∀ r, ParkingSpots db !! i = Some r →
            ¬ (floor r = get_least_dense_floor (ParkingSpots db)
               ∧ spot_type r = "Standard"))
  ∧ (uid ≠ 0 → ∃ i msg, (allocate_spot db (Some uid)).1 = allocated i msg).
Proof.
  intros Huser Hprem (j & rj & Hj & Hfree).
  set (target := get_least_dense_floor (ParkingSpots db)) in *.
  destruct (select_first_spot_id (free_on target "Premium") (ParkingSpots db))
    as [i0|] eqn:Hsel; cycle 1.
  { apply select_first_spot_id_None in Hsel. by destruct (Hsel _ _ Hj). }
  apply select_first_spot_id_Some in Hsel.
  assert (uid ≠ 0 →
          ∃ msg, (allocate_spot db (Some uid)).1 = allocated i0 msg) as Hresp.
  { intros Huid.
    apply (allocate_spot_response db uid user Huid Huser (Some i0)).
    by apply cascade_target_premium. }
  split; [|intros Huid; destruct (Hresp Huid) as [msg Hmsg]; by exists i0, msg].
  intros i msg Hi. destruct (decide (uid = 0)) as [->|Huid]; [done|].
  destruct (Hresp Huid) as [msg' Hmsg]. rewrite Hmsg in Hi.
  injection Hi as <- _. split; [done|].
  intros r Hr [_ Hstd].
  destruct (lowest_match_free_on _ _ _ _ Hsel) as (r' & Hr' & _ & Hty & _).
  congruence.
Qed.

Lemma premium_user_gets_target_premium_witness :
  Users seed_db !! 101 = Some (mkUser "Teacher" 1)
  ∧ ParkingSpots seed_db !! 2 = Some (mkSpot "Parking 1" "Premium" 0)
  ∧ free_on (get_least_dense_floor (ParkingSpots seed_db)) "Premium"
            (mkSpot "Parking 1" "Premium" 0)
  ∧ (allocate_spot seed_db (Some 101)).1
    = allocated 2 "Allocated nearest Premium spot in Parking 1 (Least Dense)."
  ∧ lowest_match
      (free_on (get_least_dense_floor (ParkingSpots seed_db)) "Premium")
      (ParkingSpots seed_db) 2.
Proof.
  assert (free_on (get_least_dense_floor (ParkingSpots seed_db)) "Premium"
                  (mkSpot "Parking 1" "Premium" 0)) as Hfree
    by (repeat split; reflexivity).
  assert ((allocate_spot seed_db (Some 101)).1
          = allocated 2 "Allocated nearest Premium spot in Parking 1 (Least Dense).")
    as Hresp by reflexivity.
  split; [reflexivity|]. split; [reflexivity|]. split; [exact Hfree|].
  split; [exact Hresp|].
  refine (proj1 (proj1 (premium_user_gets_target_premium seed_db 101
                          (mkUser "Teacher" 1) eq_refl eq_refl _) 2 _ Hresp)).
  exists 2, (mkSpot "Parking 1" "Premium" 0). split; [reflexivity|exact Hfree].
Defined.

(** C8: on the database that [init_db] builds, which holds the seed spots
    of the specification, both floors have density 1/2, the target floor is
    "Parking 1", and allocating for the standard user 102 returns spot 5,
    the lowest-id free Standard spot of "Parking 1", and marks it
    occupied. *)
Theorem seed_standard_user_gets_spot_5 :
  init_db = Some seed_db
  ∧ get_spots seed_db = spec_seed_spots
  ∧ Users seed_db !! 102 = Some (mkUser "Student" 0)
  ∧ (density (ParkingSpots seed_db) "Parking 1" == 1 # 2)%Q
  ∧ (density (ParkingSpots seed_db) "Parking 2" == 1 # 2)%Q
  ∧ get_least_dense_floor (ParkingSpots seed_db) = "Parking 1"
  ∧ lowest_match (free_on "Parking 1" "Standard") (ParkingSpots seed_db) 5
  ∧ (allocate_spot seed_db (Some 102)).1
    = allocated 5 "Allocated nearest Standard spot in Parking 1."
  ∧ ParkingSpots (allocate_spot seed_db (Some 102)).2 !! 5
    = Some (mkSpot "Parking 1" "Standard" 1).
Proof.
  split; [reflexivity|]. split; [by vm_compute|]. split; [reflexivity|].
  split; [reflexivity|]. split; [reflexivity|]. split; [reflexivity|].
  split; [|split; reflexivity].
  by apply (select_first_spot_id_Some (free_on "Parking 1" "Standard")).
Qed.

(** C9: a release that succeeds sets [is_occupied] of the released spot to
    0 and changes nothing else: the spot keeps its floor and type, every
    other spot and the users stay as they were. *)
Theorem release_spot_changes_one_flag db field :
  status (release_spot db field).1 = 200 →
  ∃ i r,
    field = Some i
    ∧ ParkingSpots db !! i = Some r
    ∧ ParkingSpots (release_spot db field).2 !! i
      = Some (mkSpot (floor r) (spot_type r) 0)
    ∧ (∀ j, j ≠ i →
         ParkingSpots (release_spot db field).2 !! j = ParkingSpots db !! j)
    ∧ Users (release_spot db field).2 = Users db.
Proof.
  unfold release_spot.
  destruct (required field) as [i|] eqn:Hreq; [|done].
  apply required_Some in Hreq as [-> Hi].
  destruct (ParkingSpots db !! i) as [r|] eqn:Hr; [|by case_decide].
  destruct (decide (is_occupied r = 0)); [done|]. simpl. intros _.
  exists i, r. repeat split; try done.
  - by apply lookup_update_is_occupied.
  - intros j Hj. by apply lookup_update_is_occupied_ne.
Qed.

Lemma release_spot_changes_one_flag_witness :
  status (release_spot seed_db (Some 1)).1 = 200
  ∧ ∃ i r,
      Some 1 = Some i
      ∧ ParkingSpots seed_db !! i = Some r
      ∧ ParkingSpots (release_spot seed_db (Some 1)).2 !! i
        = Some (mkSpot (floor r) (spot_type r) 0)
      ∧ (∀ j, j ≠ i →
           ParkingSpots (release_spot seed_db (Some 1)).2 !! j
           = ParkingSpots seed_db !! j)
      ∧ Users (release_spot seed_db (Some 1)).2 = Users seed_db.
Proof.
  split; [reflexivity|].
  apply (release_spot_changes_one_flag seed_db (Some 1)). reflexivity.
Defined.

(** C10: an id of 0 fails the presence check of both handlers: they answer
    400 "... is required", whatever the tables hold, and leave the database
    as it was; the same id is never reported as unknown. *)
Theorem zero_id_is_missing_input db :
  allocate_spot db (Some 0) = (user_id_required, db)
  ∧ release_spot db (Some 0) = (spot_id_required, db)
  ∧ status user_id_required = 400
  ∧ status spot_id_required = 400
  ∧ user_id_required ≠ invalid_user_id
  ∧ spot_id_required ≠ spot_not_found 0.
Proof. repeat split; done. Qed.

(** * Further properties *)

(** ** Inversion of the handlers *)

Lemma allocate_spot_allocated_inv db field i msg :
  (allocate_spot db field).1 = allocated i msg →
  ∃ uid user,
    field = Some uid ∧ uid ≠ 0 ∧ Users db !! uid = Some user
    ∧ allocated_spot_id (search_spot (is_premium user) (ParkingSpots db)) = Some i
    ∧ query_message (search_spot (is_premium user) (ParkingSpots db)) = msg
    ∧ (allocate_spot db field).2
      = mkDb (update_is_occupied 1 i (ParkingSpots db)) (Users db).
Proof.
  unfold allocate_spot.
  destruct (required field) as [uid|] eqn:Hreq; [|done].
  apply required_Some in Hreq as [-> Huid].
  destruct (Users db !! uid) as [user|] eqn:Huser; [|by case_decide].
  cbv zeta.
  destruct (allocated_spot_id _) as [i0|] eqn:Hsearch; [|done].
  simpl. intros [= -> <-]. by exists uid, user.
Qed.

Lemma allocate_spot_status_200 db field :
  status (allocate_spot db field).1 = 200 →
  ∃ i msg, (allocate_spot db field).1 = allocated i msg.
Proof.
  unfold allocate_spot.
  destruct (required field) as [uid|]; [|done].
  destruct (Users db !! uid) as [user|]; [|by case_decide]. cbv zeta.
  destruct (allocated_spot_id _) as [i0|]; [|done]. simpl. eauto.
Qed.

Lemma allocate_spot_failed db field :
  status (allocate_spot db field).1 ≠ 200 → (allocate_spot db field).2 = db.
Proof.
  unfold allocate_spot.
  destruct (required field) as [uid|]; [|done].
  destruct (Users db !! uid) as [user|]; [|by case_decide]. cbv zeta.
  by destruct (allocated_spot_id _) as [i0|].
Qed.

Lemma release_spot_status_200 db field :
  status (release_spot db field).1 = 200 →
  ∃ i r,
    field = Some i ∧ i ≠ 0 ∧ ParkingSpots db !! i = Some r ∧ is_occupied r ≠ 0
    ∧ release_spot db field
      = (released i, mkDb (update_is_occupied 0 i (ParkingSpots db)) (Users db)).
Proof.
  unfold release_spot.
  destruct (required field) as [i|] eqn:Hreq; [|done].
  apply required_Some in Hreq as [-> Hi].
  destruct (ParkingSpots db !! i) as [r|] eqn:Hr; [|by case_decide].
  destruct (decide (is_occupied r = 0)); [done|]. intros _. by exists i, r.
Qed.

Lemma release_spot_failed db field :
  status (release_spot db field).1 ≠ 200 → (release_spot db field).2 = db.
Proof.
  unfold release_spot.
  destruct (required field) as [i|]; [|done].
  destruct (ParkingSpots db !! i) as [r|]; [|by case_decide].
  by destruct (decide (is_occupied r = 0)).
Qed.

(** The spot that a search finds is in the table and free. *)
Lemma search_spot_Some_free is_premium t i :
  allocated_spot_id (search_spot is_premium t) = Some i →
  ∃ r, t !! i = Some r ∧ is_occupied r = 0.
Proof.
  intros Hs. pose proof (search_spot_cascade is_premium t) as Hc.
  rewrite Hs in Hc. by eapply cascade_Some_free.
Qed.

(** ** The update as an insertion *)

Lemma update_is_occupied_insert v i (t : gmap Z SpotRow) r :
  t !! i = Some r →
  update_is_occupied v i t = <[i := mkSpot (floor r) (spot_type r) v]> t.
Proof.
  intros Hr. apply map_eq. intros j. destruct (decide (j = i)) as [->|Hj].
  - by rewrite (lookup_update_is_occupied _ _ _ _ Hr), lookup_insert_eq.
  - by rewrite lookup_update_is_occupied_ne, lookup_insert_ne.
Qed.

Lemma update_is_occupied_id i (t : gmap Z SpotRow) r :
  t !! i = Some r → update_is_occupied (is_occupied r) i t = t.
Proof.
  intros Hr. rewrite (update_is_occupied_insert _ _ _ _ Hr).
  apply insert_id. by destruct r.
Qed.

Lemma update_is_occupied_twice v w i (t : gmap Z SpotRow) :
  update_is_occupied w i (update_is_occupied v i t) = update_is_occupied w i t.
Proof.
  unfold update_is_occupied.
  apply map_eq. intros j. destruct (decide (j = i)) as [->|Hj].
  - rewrite !lookup_alter_eq. by destruct (t !! i).
  - by rewrite !lookup_alter_ne.
Qed.

Lemma size_filter_insert (P : Z * SpotRow → Prop) `{!∀ kr, Decision (P kr)}
    (t : gmap Z SpotRow) i x :
  size (filter P (<[i := x]> t))
  = (size (filter P (delete i t)) + if decide (P (i, x)) then 1 else 0)%nat.
Proof.
  rewrite <- (insert_delete_eq t). destruct (decide (P (i, x))) as [HP|HP].
  - rewrite map_filter_insert_True by done.
    rewrite map_size_insert_None; [lia|].
    apply map_lookup_filter_None_2. left. apply lookup_delete_eq.
  - rewrite map_filter_insert_False by done.
    rewrite delete_delete_eq. lia.
Qed.

(** Replacing the row of [i] changes the size of a filtered table by what
    the old and the new row contribute. *)
Lemma size_filter_replace (P : Z * SpotRow → Prop) `{!∀ kr, Decision (P kr)}
    (t : gmap Z SpotRow) i r x :
  t !! i = Some r →
  (size (filter P (<[i := x]> t)) + (if decide (P (i, r)) then 1 else 0)
   = size (filter P t) + if decide (P (i, x)) then 1 else 0)%nat.
Proof.
  intros Hr. rewrite size_filter_insert.
  rewrite <- (insert_id t i r Hr) at 2. rewrite size_filter_insert. lia.
Qed.

(** ** The listing after an update *)

Lemma rowid_scan_update v i (t : gmap Z SpotRow) :
  rowid_scan (update_is_occupied v i t)
  = (λ e : SpotEntry, if decide (e.1 = i) then (e.1, set_is_occupied v e.2) else e)
      <$> rowid_scan t.
Proof.
  set (g := λ e : SpotEntry,
              if decide (e.1 = i) then (e.1, set_is_occupied v e.2) else e).
  assert (∀ e, (g e).1 = e.1) as Hkey.
  { intros e. unfold g. by destruct (decide (e.1 = i)). }
  assert ((g <$> rowid_scan t).*1 = (rowid_scan t).*1) as Hkeys.
  { rewrite <- list_fmap_compose. apply list_fmap_ext. intros _ e _. apply Hkey. }
  assert (∀ e, e ∈ rowid_scan (update_is_occupied v i t)
               ↔ e ∈ g <$> rowid_scan t) as Hiff.
  { intros [j r']. rewrite elem_of_rowid_scan, list_elem_of_fmap.
    unfold update_is_occupied. split.
    - destruct (decide (j = i)) as [->|Hj].
      + rewrite lookup_alter_eq. destruct (t !! i) as [r|] eqn:Hr; [|done].
        intros [= <-]. exists (i, r). split; [|by apply elem_of_rowid_scan].
        unfold g. simpl. by rewrite decide_True.
      + rewrite lookup_alter_ne by done. intros Hr'.
        exists (j, r'). split; [|by apply elem_of_rowid_scan].
        unfold g. simpl. by rewrite decide_False.
    - intros ([k r] & Hg & Hin). apply elem_of_rowid_scan in Hin.
      unfold g in Hg. simpl in Hg. destruct (decide (k = i)) as [->|Hk].
      + injection Hg as -> ->. by rewrite lookup_alter_eq, Hin.
      + injection Hg as -> ->. by rewrite lookup_alter_ne. }
  apply (StronglySorted_unique_strong spot_id_le).
  - intros [j1 r1] [j2 r2] H1 H2 Hle1 Hle2. unfold spot_id_le in *. simpl in *.
    assert (j1 = j2) as -> by lia. f_equal.
    apply Hiff in H2. apply elem_of_rowid_scan in H1, H2. congruence.
  - apply rowid_scan_sorted.
  - apply (StronglySorted_fmap _ spot_id_le spot_id_le).
    + intros x y. unfold spot_id_le. by rewrite !Hkey.
    + apply rowid_scan_sorted.
  - apply NoDup_Permutation; [| |done].
    + eapply NoDup_fmap_1, rowid_scan_NoDup_keys.
    + eapply NoDup_fmap_1. rewrite Hkeys. apply rowid_scan_NoDup_keys.
Qed.

Lemma get_spots_update v i t u :
  get_spots (mkDb (update_is_occupied v i t) u)
  = with_flag v i <$> get_spots (mkDb t u).
Proof.
  unfold get_spots. simpl. rewrite rowid_scan_update, <- !list_fmap_compose.
  apply list_fmap_ext. intros _ [j r] _. simpl.
  unfold with_flag, dict_of_row. simpl. by destruct (decide (j = i)).
Qed.

Lemma spot_identity_with_flag v i d : spot_identity (with_flag v i d) = spot_identity d.
Proof. unfold with_flag. by destruct (decide (d_spot_id d = i)). Qed.

(** ** One request, and many *)

(** What a request does to the database: nothing, or one update of
    [is_occupied] on a spot of the table. *)
Lemma serve_cases db req :
  (serve db req).2 = db
  ∨ ∃ i r v,
      ParkingSpots db !! i = Some r
      ∧ (v = 0 ∨ v = 1)
      ∧ (serve db req).2 = mkDb (update_is_occupied v i (ParkingSpots db)) (Users db).
Proof.
  destruct req as [field|field]; simpl.
  - destruct (decide (status (allocate_spot db field).1 = 200)) as [Hok|Hno].
    + apply allocate_spot_status_200 in Hok as (i & msg & Hresp).
      apply allocate_spot_allocated_inv in Hresp
        as (uid & user & _ & _ & _ & Hs & _ & Hdb).
      apply search_spot_Some_free in Hs as (r & Hr & _).
      right. exists i, r, 1. eauto.
    + left. by apply allocate_spot_failed.
  - destruct (decide (status (release_spot db field).1 = 200)) as [Hok|Hno].
    + apply release_spot_status_200 in Hok as (i & r & _ & _ & Hr & _ & Hrel).
      right. exists i, r, 0. rewrite Hrel. eauto.
    + left. by apply release_spot_failed.
Qed.

(** A property that every request keeps holds after any sequence of
    requests. *)
Lemma serve_all_invariant (I : Database → Prop) :
  (∀ db req, I db → I (serve db req).2) →
  ∀ reqs db, I db → I (serve_all reqs db).
Proof.
  intros Hstep reqs. unfold serve_all.
  induction reqs as [|req reqs IH]; intros db Hdb; simpl; [done|].
  by apply IH, Hstep.
Qed.

Lemma serve_keeps_identity db req :
  spot_identity <$> get_spots (serve db req).2 = spot_identity <$> get_spots db
  ∧ Users (serve db req).2 = Users db.
Proof.
  destruct (serve_cases db req) as [->|(i & r & v & _ & _ & ->)]; [done|].
  split; [|done]. destruct db as [t u]. simpl.
  rewrite get_spots_update, <- list_fmap_compose.
  apply list_fmap_ext. intros _ d _. apply spot_identity_with_flag.
Qed.

Lemma serve_keeps_flags_binary db req :
  flags_binary (ParkingSpots db) → flags_binary (ParkingSpots (serve db req).2).
Proof.
  intros Hflags.
  destruct (serve_cases db req) as [->|(i & r & v & Hr & Hv & ->)]; [done|].
  simpl. intros j r'. destruct (decide (j = i)) as [->|Hj].
  - rewrite (lookup_update_is_occupied _ _ _ _ Hr). intros [= <-]. simpl. lia.
  - rewrite lookup_update_is_occupied_ne by done. apply Hflags.
Qed.

(** ** Further theorems *)

(** X1: a request that is not answered 200 leaves the database exactly as
    it was, whichever of the two routes it goes to and whatever its
    field holds. *)
Theorem failed_request_leaves_database db req :
  status (serve db req).1 ≠ 200 → (serve db req).2 = db.
Proof.
  destruct req as [field|field]; simpl.
  - apply allocate_spot_failed.
  - apply release_spot_failed.
Qed.

Lemma failed_request_leaves_database_witness :
  status (serve seed_db (Allocate (Some 999))).1 ≠ 200
  ∧ (serve seed_db (Allocate (Some 999))).2 = seed_db.
Proof.
  assert (status (serve seed_db (Allocate (Some 999))).1 ≠ 200) as H
    by (vm_compute; discriminate).
  exact (conj H (failed_request_leaves_database seed_db (Allocate (Some 999)) H)).
Defined.

(** X2: whatever sequence of allocate and release requests is served, the
    listing keeps the same spots in the same order, each with its floor and
    type, and the users are untouched: requests only ever change
    [is_occupied]. *)
Theorem requests_keep_spot_identity reqs db :
  spot_identity <$> get_spots (serve_all reqs db) = spot_identity <$> get_spots db
  ∧ Users (serve_all reqs db) = Users db.
Proof.
  apply (serve_all_invariant
           (λ db', spot_identity <$> get_spots db' = spot_identity <$> get_spots db
                   ∧ Users db' = Users db)); [|done].
  intros db' req [Hid Hu]. destruct (serve_keeps_identity db' req) as [Hid' Hu'].
  split; congruence.
Qed.

(** X3: after a successful allocation of spot [i] the listing is the
    former listing with [is_occupied] of spot [i] set to 1, and after a
    successful release of spot [i] it is the former listing with that flag
    set to 0. *)
Theorem listing_after_success db field :
  (∀ i msg, (allocate_spot db field).1 = allocated i msg →
     get_spots (allocate_spot db field).2 = with_flag 1 i <$> get_spots db)
  ∧ (∀ i, status (release_spot db field).1 = 200 → field = Some i →
     get_spots (release_spot db field).2 = with_flag 0 i <$> get_spots db).
Proof.
  split.
  - intros i msg Hresp.
    apply allocate_spot_allocated_inv in Hresp as (_ & _ & _ & _ & _ & _ & _ & ->).
    destruct db. apply get_spots_update.
  - intros i Hok ->.
    apply release_spot_status_200 in Hok as (j & r & [= <-] & _ & _ & _ & ->).
    destruct db. apply get_spots_update.
Qed.

Lemma listing_after_success_witness :
  (allocate_spot seed_db (Some 102)).1
  = allocated 5 "Allocated nearest Standard spot in Parking 1."
  ∧ get_spots (allocate_spot seed_db (Some 102)).2
    = with_flag 1 5 <$> get_spots seed_db.
Proof.
  assert ((allocate_spot seed_db (Some 102)).1
          = allocated 5 "Allocated nearest Standard spot in Parking 1.") as H
    by reflexivity.
  exact (conj H (proj1 (listing_after_success seed_db (Some 102)) 5 _ H)).
Defined.

(** X4: if every [is_occupied] is 0 or 1, it stays so after any sequence
    of requests. *)
Theorem requests_keep_flags_binary reqs db :
  flags_binary (ParkingSpots db) →
  flags_binary (ParkingSpots (serve_all reqs db)).
Proof.
  apply (serve_all_invariant (λ db', flags_binary (ParkingSpots db'))).
  apply serve_keeps_flags_binary.
Qed.

Lemma seed_flags_binary : flags_binary (ParkingSpots seed_db).
Proof.
  change (map_Forall (λ (_ : Z) r, is_occupied r = 0 ∨ is_occupied r = 1)
                     (ParkingSpots seed_db)).
  apply (bool_decide_unpack _). by vm_compute.
Qed.

Lemma requests_keep_flags_binary_witness :
  flags_binary (ParkingSpots seed_db)
  ∧ flags_binary
      (ParkingSpots (serve_all [Allocate (Some 102); Release (Some 1)] seed_db)).
Proof.
  exact (conj seed_flags_binary
           (requests_keep_flags_binary [Allocate (Some 102); Release (Some 1)]
              seed_db seed_flags_binary)).
Defined.

(** X22: whatever the order of the listing, [get_spots] returns every
    spot of the table with its columns, nothing else, and no spot twice. *)
Theorem get_spots_full_snapshot db :
  (∀ d, d ∈ get_spots db
        ↔ ParkingSpots db !! d_spot_id d
          = Some (mkSpot (d_floor d) (d_spot_type d) (d_is_occupied d)))
  ∧ NoDup (d_spot_id <$> get_spots db)
  ∧ length (get_spots db) = size (ParkingSpots db).
Proof.
  unfold get_spots. split; [|split].
  - intros [i f ty occ]. simpl. rewrite <- elem_of_rowid_scan.
    rewrite list_elem_of_fmap. split.
    + intros ([j [f' ty' occ']] & Hd & Hin).
      unfold dict_of_row in Hd. by simplify_eq/=.
    + intros Hin. by exists (i, mkSpot f ty occ).
  - rewrite <- list_fmap_compose. apply rowid_scan_NoDup_keys.
  - by rewrite length_fmap, length_rowid_scan.
Qed.

(** X5: a successful allocation lowers the number of free spots by exactly
    one, and a successful release raises it by exactly one. *)
Theorem free_count_steps db field :
  (status (allocate_spot db field).1 = 200 →
     S (free_count (ParkingSpots (allocate_spot db field).2))
     = free_count (ParkingSpots db))
  ∧ (status (release_spot db field).1 = 200 →
     free_count (ParkingSpots (release_spot db field).2)
     = S (free_count (ParkingSpots db))).
Proof.
  unfold free_count. split.
  - intros Hok. apply allocate_spot_status_200 in Hok as (i & msg & Hresp).
    apply allocate_spot_allocated_inv in Hresp
      as (uid & user & _ & _ & _ & Hs & _ & ->).
    apply search_spot_Some_free in Hs as (r & Hr & Hfree). simpl.
    rewrite (update_is_occupied_insert _ _ _ _ Hr).
    pose proof (size_filter_replace
                  (λ kr : Z * SpotRow, is_occupied kr.2 = 0) _ _ _
                  (mkSpot (floor r) (spot_type r) 1) Hr) as Hsz.
    repeat case_decide; simpl in *; lia.
  - intros Hok.
    apply release_spot_status_200 in Hok as (i & r & _ & _ & Hr & Hocc & ->).
    simpl. rewrite (update_is_occupied_insert _ _ _ _ Hr).
    pose proof (size_filter_replace
                  (λ kr : Z * SpotRow, is_occupied kr.2 = 0) _ _ _
                  (mkSpot (floor r) (spot_type r) 0) Hr) as Hsz.
    repeat case_decide; simpl in *; lia.
Qed.

Lemma free_count_steps_witness :
  status (allocate_spot seed_db (Some 102)).1 = 200
  ∧ S (free_count (ParkingSpots (allocate_spot seed_db (Some 102)).2))
    = free_count (ParkingSpots seed_db)
  ∧ status (release_spot seed_db (Some 1)).1 = 200
  ∧ free_count (ParkingSpots (release_spot seed_db (Some 1)).2)
    = S (free_count (ParkingSpots seed_db)).
Proof.
  exact (conj eq_refl
           (conj (proj1 (free_count_steps seed_db (Some 102)) eq_refl)
              (conj eq_refl
                 (proj2 (free_count_steps seed_db (Some 1)) eq_refl)))).
Defined.

Lemma quotient_succ_lt (o c : Z) :
  0 < c → (inject_Z o / inject_Z c < inject_Z (o + 1) / inject_Z c)%Q.
Proof.
  intros Hc. destruct c as [|p|p]; try lia.
  unfold Qdiv, Qinv, Qmult, Qlt, inject_Z. simpl. nia.
Qed.

(** X6: a successful allocation leaves the number of spots of every floor
    as it was, raises the number of occupied spots of the allocated spot's
    floor by one and of no other floor, and so strictly raises the density
    of that floor while every other density stays the same. *)
Theorem allocation_raises_one_density db field i msg :
  (allocate_spot db field).1 = allocated i msg →
  ∃ r, ParkingSpots db !! i = Some r
    ∧ (∀ f, total_count (ParkingSpots (allocate_spot db field).2) f
            = total_count (ParkingSpots db) f)
    ∧ occupied_count (ParkingSpots (allocate_spot db field).2) (floor r)
      = S (occupied_count (ParkingSpots db) (floor r))
    ∧ (∀ f, f ≠ floor r →
         occupied_count (ParkingSpots (allocate_spot db field).2) f
         = occupied_count (ParkingSpots db) f)
    ∧ (density (ParkingSpots db) (floor r)
       < density (ParkingSpots (allocate_spot db field).2) (floor r))%Q
    ∧ (∀ f, f ≠ floor r →
         density (ParkingSpots (allocate_spot db field).2) f
         = density (ParkingSpots db) f).
Proof.
  intros Hresp.
  apply allocate_spot_allocated_inv in Hresp
    as (uid & user & _ & _ & _ & Hs & _ & ->).
  apply search_spot_Some_free in Hs as (r & Hr & Hfree). simpl.
  exists r. split; [done|].
  rewrite (update_is_occupied_insert _ _ _ _ Hr).
  set (r1 := mkSpot (floor r) (spot_type r) 1).
  assert (∀ f, total_count (<[i := r1]> (ParkingSpots db)) f
               = total_count (ParkingSpots db) f) as Htot.
  { intros f. unfold total_count.
    pose proof (size_filter_replace
                  (λ kr : Z * SpotRow, floor kr.2 = f) _ _ _ r1 Hr) as Hsz.
    repeat case_decide; simpl in *; done || lia. }
  assert (occupied_count (<[i := r1]> (ParkingSpots db)) (floor r)
          = S (occupied_count (ParkingSpots db) (floor r))) as Hocc.
  { unfold occupied_count.
    pose proof (size_filter_replace
                  (λ kr : Z * SpotRow, floor kr.2 = floor r ∧ is_occupied kr.2 = 1)
                  _ _ _ r1 Hr) as Hsz.
    repeat case_decide; simpl in *; try lia; tauto. }
  assert (∀ f, f ≠ floor r →
            occupied_count (<[i := r1]> (ParkingSpots db)) f
            = occupied_count (ParkingSpots db) f) as Hother.
  { intros f Hf. unfold occupied_count.
    pose proof (size_filter_replace
                  (λ kr : Z * SpotRow, floor kr.2 = f ∧ is_occupied kr.2 = 1)
                  _ _ _ r1 Hr) as Hsz.
    repeat case_decide; simpl in *; try lia; destruct_and?; congruence. }
  split; [done|]. split; [done|]. split; [done|]. split.
  - assert (0 < total_count (ParkingSpots db) (floor r))%nat as Hpos.
    { apply total_count_pos. eauto. }
    rewrite !density_unfold, Htot, Hocc, !decide_True by done.
    unfold row_density. rewrite !decide_True by lia.
    rewrite Nat2Z.inj_succ, <- Z.add_1_r. apply quotient_succ_lt. lia.
  - intros f Hf. by rewrite !density_unfold, Htot, Hother.
Qed.

Lemma allocation_raises_one_density_witness :
  (allocate_spot seed_db (Some 102)).1
  = allocated 5 "Allocated nearest Standard spot in Parking 1."
  ∧ (density (ParkingSpots seed_db) "Parking 1"
     < density (ParkingSpots (allocate_spot seed_db (Some 102%Z)).2) "Parking 1")%Q.
Proof.
  assert ((allocate_spot seed_db (Some 102)).1
          = allocated 5 "Allocated nearest Standard spot in Parking 1.") as H
    by reflexivity.
  split; [exact H|].
  destruct (allocation_raises_one_density seed_db (Some 102) 5 _ H)
    as (r & Hr & _ & _ & _ & Hlt & _).
  injection Hr as <-. exact Hlt.
Defined.

(** X7: releasing the spot that an allocation has just returned succeeds
    and restores the database exactly as it was before the allocation,
    provided the spot id is not 0. *)
Theorem release_undoes_allocation db field i msg :
  (allocate_spot db field).1 = allocated i msg →
  i ≠ 0 →
  release_spot (allocate_spot db field).2 (Some i) = (released i, db).
Proof.
  intros Hresp Hi.
  apply allocate_spot_allocated_inv in Hresp
    as (uid & user & _ & _ & _ & Hs & _ & ->).
  apply search_spot_Some_free in Hs as (r & Hr & Hfree).
  pose proof (lookup_update_is_occupied 1 _ _ _ Hr) as Hnew.
  rewrite (release_spot_occupied
             (mkDb (update_is_occupied 1 i (ParkingSpots db)) (Users db))
             i _ Hi Hnew) by (simpl; lia).
  simpl.
  rewrite update_is_occupied_twice. rewrite <- Hfree.
  rewrite (update_is_occupied_id _ _ _ Hr). by destruct db.
Qed.

Lemma release_undoes_allocation_witness :
  (allocate_spot seed_db (Some 102)).1
  = allocated 5 "Allocated nearest Standard spot in Parking 1."
  ∧ 5 ≠ 0
  ∧ release_spot (allocate_spot seed_db (Some 102)).2 (Some 5)
    = (released 5, seed_db).
Proof.
  assert ((allocate_spot seed_db (Some 102)).1
          = allocated 5 "Allocated nearest Standard spot in Parking 1.") as H
    by reflexivity.
  assert (5 ≠ 0) as H5 by lia.
  exact (conj H (conj H5 (release_undoes_allocation seed_db (Some 102) 5 _ H H5))).
Defined.

(** ** What the search finds, and when it finds nothing *)

Lemma search_spot_None is_premium t :
  allocated_spot_id (search_spot is_premium t) = None
  ↔ no_match (free_anywhere "Standard") t
    ∧ (is_premium = 1 → no_match (free_anywhere "Premium") t).
Proof.
  pose proof (search_spot_cascade is_premium t) as Hc. split.
  - intros Hnone. rewrite Hnone in Hc. by inversion Hc.
  - intros [Hstd Hprem].
    eapply cascade_functional; [exact Hc|]. by apply cascade_no_capacity.
Qed.

Lemma search_spot_rule is_premium t i :
  allocated_spot_id (search_spot is_premium t) = Some i →
  matched_rule is_premium (get_least_dense_floor t) t i
               (query_message (search_spot is_premium t)).
Proof.
  unfold search_spot.
  set (target := get_least_dense_floor t).
  destruct (decide (is_premium = 1)) as [Hprem|Hstd].
  - destruct (select_first_spot_id (free_on target "Premium") t)
      as [i1|] eqn:H1; simpl.
    { intros [= ->]. apply rule_target_premium; [done|].
      by apply select_first_spot_id_Some in H1. }
    apply select_first_spot_id_None in H1.
    destruct (select_first_spot_id (free_on target "Standard") t)
      as [i2|] eqn:H2; simpl.
    { intros [= ->]. apply rule_target_standard_premium_user; try done.
      by apply select_first_spot_id_Some in H2. }
    apply select_first_spot_id_None in H2.
    destruct (select_first_spot_id (free_anywhere "Premium") t)
      as [i3|] eqn:H3; simpl.
    { intros [= ->]. apply rule_any_premium; try done.
      by apply select_first_spot_id_Some in H3. }
    apply select_first_spot_id_None in H3.
    destruct (select_first_spot_id (free_anywhere "Standard") t)
      as [i4|] eqn:H4; simpl; [|done].
    intros [= ->]. apply rule_any_standard; try done.
    by apply select_first_spot_id_Some in H4.
  - simpl.
    destruct (select_first_spot_id (free_on target "Standard") t)
      as [i2|] eqn:H2; simpl.
    { intros [= ->]. apply rule_target_standard; [done|].
      by apply select_first_spot_id_Some in H2. }
    apply select_first_spot_id_None in H2.
    destruct (select_first_spot_id (free_anywhere "Standard") t)
      as [i4|] eqn:H4; simpl; [|done].
    intros [= ->]. apply rule_any_standard; try done.
    by apply select_first_spot_id_Some in H4.
Qed.

(** X8: no sequence of requests whose ids are JSON integers (or absent)
    frees a spot with id 0 that is occupied: the integer 0 never passes the
    presence check of [release_spot], and no other request frees a spot it
    does not name. *)
Theorem integer_requests_never_release_spot_zero db r reqs :
  ParkingSpots db !! 0 = Some r →
  is_occupied r ≠ 0 →
  ∃ r', ParkingSpots (serve_all reqs db) !! 0 = Some r' ∧ is_occupied r' ≠ 0.
Proof.
  intros Hr Hocc.
  apply (serve_all_invariant
           (λ db', ∃ r', ParkingSpots db' !! 0 = Some r' ∧ is_occupied r' ≠ 0));
    [|by eauto].
  clear. intros db [field|field] (r & Hr & Hocc); simpl.
  - destruct (decide (status (allocate_spot db field).1 = 200)) as [Hok|Hno].
    + apply allocate_spot_status_200 in Hok as (i & msg & Hresp).
      apply allocate_spot_allocated_inv in Hresp
        as (uid & user & _ & _ & _ & Hs & _ & ->).
      apply search_spot_Some_free in Hs as (ri & Hi & Hfree). simpl.
      assert (i ≠ 0) as Hne by (intros ->; congruence).
      rewrite lookup_update_is_occupied_ne by done. eauto.
    + rewrite allocate_spot_failed by done. eauto.
  - destruct (decide (status (release_spot db field).1 = 200)) as [Hok|Hno].
    + apply release_spot_status_200 in Hok as (i & ri & _ & Hne & _ & _ & ->).
      simpl. rewrite lookup_update_is_occupied_ne by done. eauto.
    + rewrite release_spot_failed by done. eauto.
Qed.

Lemma integer_requests_never_release_spot_zero_witness :
  ParkingSpots (mkDb {[0 := mkSpot "Parking 1" "Standard" 1]} ∅) !! 0
  = Some (mkSpot "Parking 1" "Standard" 1)
  ∧ is_occupied (mkSpot "Parking 1" "Standard" 1) ≠ 0
  ∧ ∃ r', ParkingSpots
            (serve_all [Release (Some 0)]
               (mkDb {[0 := mkSpot "Parking 1" "Standard" 1]} ∅)) !! 0
          = Some r'
          ∧ is_occupied r' ≠ 0.
Proof.
  assert (is_occupied (mkSpot "Parking 1" "Standard" 1) ≠ 0) as Hocc
    by (simpl; lia).
  exact (conj eq_refl
           (conj Hocc
              (integer_requests_never_release_spot_zero
                 (mkDb {[0 := mkSpot "Parking 1" "Standard" 1]} ∅)
                 _ [Release (Some 0)] eq_refl Hocc))).
Defined.

(** X9: two allocations in a row never return the same spot. *)
Theorem consecutive_allocations_differ db field1 field2 i j msg1 msg2 :
  (allocate_spot db field1).1 = allocated i msg1 →
  (allocate_spot (allocate_spot db field1).2 field2).1 = allocated j msg2 →
  i ≠ j.
Proof.
  intros H1 H2.
  apply allocate_spot_allocated_inv in H1
    as (uid1 & user1 & _ & _ & _ & Hs1 & _ & Hdb).
  rewrite Hdb in H2.
  apply allocate_spot_allocated_inv in H2
    as (uid2 & user2 & _ & _ & _ & Hs2 & _ & _).
  apply search_spot_Some_free in Hs1 as (ri & Hi & _).
  apply search_spot_Some_free in Hs2 as (rj & Hj & Hfree). simpl in Hj.
  intros ->. rewrite (lookup_update_is_occupied _ _ _ _ Hi) in Hj.
  injection Hj as <-. simpl in Hfree. lia.
Qed.

Lemma consecutive_allocations_differ_witness :
  (allocate_spot seed_db (Some 102)).1
  = allocated 5 "Allocated nearest Standard spot in Parking 1."
  ∧ (allocate_spot (allocate_spot seed_db (Some 102)).2 (Some 102)).1
    = allocated 13 "Allocated nearest Standard spot in Parking 2."
  ∧ 5 ≠ 13.
Proof.
  assert ((allocate_spot seed_db (Some 102)).1
          = allocated 5 "Allocated nearest Standard spot in Parking 1.") as H1
    by reflexivity.
  assert ((allocate_spot (allocate_spot seed_db (Some 102)).2 (Some 102)).1
          = allocated 13 "Allocated nearest Standard spot in Parking 2.") as H2
    by reflexivity.
  exact (conj H1 (conj H2
           (consecutive_allocations_differ seed_db _ _ _ _ _ _ H1 H2))).
Defined.

(** X10: a known user whose id is not 0 is answered "All spots are
    currently occupied." exactly when no Standard spot is free on any floor
    and, for a premium user, no Premium spot is free either; free Premium
    spots do not help a standard user. *)
Theorem no_capacity_iff_nothing_free db uid user :
  uid ≠ 0 →
  Users db !! uid = Some user →
  (allocate_spot db (Some uid)).1 = no_capacity
  ↔ no_match (free_anywhere "Standard") (ParkingSpots db)
    ∧ (is_premium user = 1 → no_match (free_anywhere "Premium") (ParkingSpots db)).
Proof.
  intros Huid Huser. rewrite <- search_spot_None.
  rewrite (allocate_spot_known _ _ _ Huid Huser). cbv zeta.
  by destruct (allocated_spot_id _).
Qed.

Lemma no_capacity_iff_nothing_free_witness :
  7 ≠ 0
  ∧ Users (mkDb {[1 := mkSpot "Parking 1" "Premium" 0]}
                {[7 := mkUser "Student" 0]}) !! 7
    = Some (mkUser "Student" 0)
  ∧ (allocate_spot (mkDb {[1 := mkSpot "Parking 1" "Premium" 0]}
                         {[7 := mkUser "Student" 0]}) (Some 7)).1
    = no_capacity
  ∧ no_match (free_anywhere "Standard")
             ({[1 := mkSpot "Parking 1" "Premium" 0]} : gmap Z SpotRow).
Proof.
  split; [lia|]. split; [reflexivity|]. split; [reflexivity|].
  refine (proj1 (proj1 (no_capacity_iff_nothing_free
                          (mkDb {[1 := mkSpot "Parking 1" "Premium" 0]}
                                {[7 := mkUser "Student" 0]})
                          7 (mkUser "Student" 0) _ eq_refl) eq_refl)).
  lia.
Defined.

(** X11: the message of a successful allocation names the rule that
    matched: each of the five messages comes with the facts of its rule
    (the tier of the user, what the earlier rules failed to find, and the
    returned id being the lowest-id free spot of the rule's kind). *)
Theorem message_names_matched_rule db field i msg :
  (allocate_spot db field).1 = allocated i msg →
  ∃ uid user,
    field = Some uid ∧ Users db !! uid = Some user
    ∧ matched_rule (is_premium user) (get_least_dense_floor (ParkingSpots db))
                   (ParkingSpots db) i msg.
Proof.
  intros Hresp.
  apply allocate_spot_allocated_inv in Hresp
    as (uid & user & -> & _ & Huser & Hs & <- & _).
  exists uid, user. split; [done|]. split; [done|]. by apply search_spot_rule.
Qed.

Lemma message_names_matched_rule_witness :
  (allocate_spot seed_db (Some 101)).1
  = allocated 2 "Allocated nearest Premium spot in Parking 1 (Least Dense)."
  ∧ ∃ uid user,
      Some 101 = Some uid ∧ Users seed_db !! uid = Some user
      ∧ matched_rule (is_premium user)
                     (get_least_dense_floor (ParkingSpots seed_db))
                     (ParkingSpots seed_db) 2
                     "Allocated nearest Premium spot in Parking 1 (Least Dense).".
Proof.
  assert ((allocate_spot seed_db (Some 101)).1
          = allocated 2 "Allocated nearest Premium spot in Parking 1 (Least Dense).")
    as H by reflexivity.
  exact (conj H (message_names_matched_rule seed_db (Some 101) 2 _ H)).
Defined.

(** X12: the allocated spot is a Standard spot, or it is a Premium spot
    and the user is premium: a standard user is never given a Premium spot,
    and spots of any other type are never given to anyone. *)
Theorem allocated_spot_tier db field i msg :
  (allocate_spot db field).1 = allocated i msg →
  ∃ uid user r,
    field = Some uid ∧ Users db !! uid = Some user
    ∧ ParkingSpots db !! i = Some r
    ∧ (spot_type r = "Standard"
       ∨ (spot_type r = "Premium" ∧ is_premium user = 1)).
Proof.
  intros Hresp.
  apply allocate_spot_allocated_inv in Hresp
    as (uid & user & -> & _ & Huser & Hs & _ & _).
  apply search_spot_rule in Hs. exists uid, user.
  inversion Hs; subst;
    match goal with
    | H : lowest_match (free_on _ _) _ _ |- _ =>
        apply lowest_match_free_on in H as (r & ? & ? & ? & ?)
    | H : lowest_match (free_anywhere _) _ _ |- _ =>
        apply lowest_match_free_anywhere in H as (r & ? & ? & ?)
    end; exists r; eauto 10.
Qed.

Lemma allocated_spot_tier_witness :
  (allocate_spot seed_db (Some 102)).1
  = allocated 5 "Allocated nearest Standard spot in Parking 1."
  ∧ ∃ uid user r,
      Some 102 = Some uid ∧ Users seed_db !! uid = Some user
      ∧ ParkingSpots seed_db !! 5 = Some r
      ∧ (spot_type r = "Standard"
         ∨ (spot_type r = "Premium" ∧ is_premium user = 1)).
Proof.
  assert ((allocate_spot seed_db (Some 102)).1
          = allocated 5 "Allocated nearest Standard spot in Parking 1.") as H
    by reflexivity.
  exact (conj H (allocated_spot_tier seed_db (Some 102) 5 _ H)).
Defined.

(** X13: a spot outside the target floor is allocated only when the
    target floor has no free Standard spot and, for a premium user, no free
    Premium spot either. *)
Theorem overflow_only_when_target_exhausted db uid user i msg r :
  Users db !! uid = Some user →
  (allocate_spot db (Some uid)).1 = allocated i msg →
  ParkingSpots db !! i = Some r →
  floor r ≠ get_least_dense_floor (ParkingSpots db) →
  no_match (free_on (get_least_dense_floor (ParkingSpots db)) "Standard")
           (ParkingSpots db)
  ∧ (is_premium user = 1 →
     no_match (free_on (get_least_dense_floor (ParkingSpots db)) "Premium")
              (ParkingSpots db)).
Proof.
  intros Huser Hresp Hr Hfloor.
  apply allocate_spot_allocated_inv in Hresp
    as (uid' & user' & [= <-] & _ & Huser' & Hs & _ & _).
  assert (user' = user) as -> by congruence.
  apply search_spot_rule in Hs.
  inversion Hs; subst;
    try match goal with
    | H : lowest_match (free_on _ _) _ _ |- _ =>
        apply lowest_match_free_on in H as (r' & ? & ? & ? & ?); congruence
    end.
  - done.
  - split; [done|]. intros Hprem. apply no_match_anywhere_on. auto.
Qed.

Lemma overflow_only_when_target_exhausted_witness :
  Users (mkDb {[1 := mkSpot "Parking 1" "Standard" 1;
                2 := mkSpot "Parking 2" "Standard" 0;
                3 := mkSpot "Parking 2" "Standard" 1;
                4 := mkSpot "Parking 2" "Standard" 1;
                5 := mkSpot "Parking 1" "Premium" 0]}
              {[7 := mkUser "Student" 0]}) !! 7
  = Some (mkUser "Student" 0)
  ∧ no_match (free_on "Parking 1" "Standard")
             ({[1 := mkSpot "Parking 1" "Standard" 1;
                2 := mkSpot "Parking 2" "Standard" 0;
                3 := mkSpot "Parking 2" "Standard" 1;
                4 := mkSpot "Parking 2" "Standard" 1;
                5 := mkSpot "Parking 1" "Premium" 0]} : gmap Z SpotRow).
Proof.
  split; [reflexivity|].
  refine (proj1 (overflow_only_when_target_exhausted
                   (mkDb {[1 := mkSpot "Parking 1" "Standard" 1;
                           2 := mkSpot "Parking 2" "Standard" 0;
                           3 := mkSpot "Parking 2" "Standard" 1;
                           4 := mkSpot "Parking 2" "Standard" 1;
                           5 := mkSpot "Parking 1" "Premium" 0]}
                         {[7 := mkUser "Student" 0]})
                   7 (mkUser "Student" 0) 2
                   "Least dense area full. Allocated nearest available Standard spot."
                   (mkSpot "Parking 2" "Standard" 0)
                   eq_refl eq_refl eq_refl _)).
  vm_compute. discriminate.
Defined.

(** ** The target floor in integers *)

Lemma quotient_lt_one (o c : Z) :
  0 < c → (inject_Z o / inject_Z c < 1)%Q ↔ o < c.
Proof.
  intros Hc. destruct c as [|p|p]; try lia.
  unfold Qdiv, Qinv, Qmult, Qlt, inject_Z. simpl. lia.
Qed.

Lemma quotient_lt_cross (o1 c1 o2 c2 : Z) :
  0 < c1 → 0 < c2 →
  (inject_Z o2 / inject_Z c2 < inject_Z o1 / inject_Z c1)%Q ↔ o2 * c1 < o1 * c2.
Proof.
  intros H1 H2. destruct c1 as [|p1|p1], c2 as [|p2|p2]; try lia.
  unfold Qdiv, Qinv, Qmult, Qlt, inject_Z. simpl. lia.
Qed.

Lemma density_lt_one t f :
  (0 < total_count t f)%nat →
  (density t f < 1)%Q ↔ (occupied_count t f < total_count t f)%nat.
Proof.
  intros Hpos. rewrite density_unfold, decide_True by done.
  unfold row_density. rewrite decide_True by lia.
  pose proof (quotient_lt_one (Z.of_nat (occupied_count t f))
                (Z.of_nat (total_count t f)) ltac:(lia)) as Hq.
  split.
  - intros Hlt. apply Hq in Hlt. lia.
  - intros Hlt. apply Hq. lia.
Qed.

Lemma density_lt_cross t f g :
  (0 < total_count t f)%nat → (0 < total_count t g)%nat →
  (density t g < density t f)%Q
  ↔ (occupied_count t g * total_count t f
     < occupied_count t f * total_count t g)%nat.
Proof.
  intros Hf Hg. rewrite !density_unfold, !decide_True by done.
  unfold row_density. rewrite !decide_True by lia.
  pose proof (quotient_lt_cross
                (Z.of_nat (occupied_count t f)) (Z.of_nat (total_count t f))
                (Z.of_nat (occupied_count t g)) (Z.of_nat (total_count t g))
                ltac:(lia) ltac:(lia)) as Hq.
  split.
  - intros Hlt. apply Hq in Hlt. nia.
  - intros Hlt. apply Hq. nia.
Qed.

Lemma density_empty t f : total_count t f = 0%nat → density t f = 1%Q.
Proof. intros Hz. rewrite density_unfold, decide_False; [done|lia]. Qed.

(** X14: the target floor is always "Parking 1" or "Parking 2", whatever
    floors the table holds; it is "Parking 1" for a table without spots;
    and it is "Parking 2" only if "Parking 2" has a spot that is not
    occupied. *)
Theorem target_floor_range (t : gmap Z SpotRow) :
  (get_least_dense_floor t = "Parking 1" ∨ get_least_dense_floor t = "Parking 2")
  ∧ (t = ∅ → get_least_dense_floor t = "Parking 1")
  ∧ (get_least_dense_floor t = "Parking 2" →
     (occupied_count t "Parking 2" < total_count t "Parking 2")%nat).
Proof.
  rewrite target_floor_unfold.
  destruct (Qlt_le_dec _ _) as [Hlt|Hle].
  - split; [by right|]. split.
    + intros ->. by vm_compute in Hlt.
    + intros _.
      assert (double (density t "Parking 2") < double 1)%Q as Hlt1.
      { eapply Qlt_le_trans; [exact Hlt|].
        rewrite double_1. apply double_density_le_1. }
      apply double_lt_inv in Hlt1; [|apply density_bounds..|done|done].
      destruct (decide (0 < total_count t "Parking 2")%nat) as [Hpos|Hz].
      * by apply density_lt_one.
      * rewrite density_empty in Hlt1 by lia. done.
  - split; [by left|]. split; done.
Qed.

Lemma target_floor_range_witness :
  get_least_dense_floor
    ({[1 := mkSpot "Parking 1" "Standard" 1;
       2 := mkSpot "Parking 2" "Standard" 0]} : gmap Z SpotRow)
  = "Parking 2"
  ∧ lt (occupied_count
          ({[1 := mkSpot "Parking 1" "Standard" 1;
             2 := mkSpot "Parking 2" "Standard" 0]} : gmap Z SpotRow)
          "Parking 2")
       (total_count
          ({[1 := mkSpot "Parking 1" "Standard" 1;
             2 := mkSpot "Parking 2" "Standard" 0]} : gmap Z SpotRow)
          "Parking 2").
Proof.
  split; [reflexivity|].
  apply (proj2 (proj2 (target_floor_range
                         {[1 := mkSpot "Parking 1" "Standard" 1;
                           2 := mkSpot "Parking 2" "Standard" 0]}))).
  reflexivity.
Defined.

Lemma density_QDen t f :
  (0 < total_count t f)%nat → QDen (density t f) = Z.of_nat (total_count t f).
Proof.
  intros Hpos. rewrite density_unfold, decide_True by done.
  unfold row_density. rewrite decide_True by lia.
  destruct (total_count t f); [lia|]. simpl. lia.
Qed.

(** X15: when both floors have spots, the target is "Parking 2" only if
    occupied("Parking 2") * total("Parking 1") is less than
    occupied("Parking 1") * total("Parking 2"); and when moreover
    total("Parking 1") * total("Parking 2") is below 2^52 (as with fewer
    than 2^26 spots on each floor), the two quotients are far enough apart
    as doubles and the target is "Parking 2" exactly then. *)
Theorem target_floor_by_counts (t : gmap Z SpotRow) :
  (0 < total_count t "Parking 1")%nat →
  (0 < total_count t "Parking 2")%nat →
  (get_least_dense_floor t = "Parking 2" →
     (occupied_count t "Parking 2" * total_count t "Parking 1"
      < occupied_count t "Parking 1" * total_count t "Parking 2")%nat)
  ∧ (Z.of_nat (total_count t "Parking 1") * Z.of_nat (total_count t "Parking 2")
     < 2 ^ 52 →
     (occupied_count t "Parking 2" * total_count t "Parking 1"
      < occupied_count t "Parking 1" * total_count t "Parking 2")%nat →
     get_least_dense_floor t = "Parking 2").
Proof.
  intros H1 H2. rewrite target_floor_unfold.
  pose proof (density_bounds t "Parking 1") as [H1lo H1hi].
  pose proof (density_bounds t "Parking 2") as [H2lo H2hi].
  destruct (Qlt_le_dec _ _) as [Hlt|Hle].
  - split; [|done]. intros _.
    apply double_lt_inv in Hlt; [|done..].
    by apply density_lt_cross in Hlt.
  - split; [done|]. intros Hsmall Hcross.
    apply density_lt_cross in Hcross; [|done..].
    apply Qle_not_lt in Hle. destruct Hle.
    apply double_lt_small; [done..|].
    rewrite !density_QDen by done. lia.
Qed.

Lemma target_floor_by_counts_witness :
  lt 0 (total_count
          ({[1 := mkSpot "Parking 1" "Standard" 1;
             2 := mkSpot "Parking 2" "Standard" 0]} : gmap Z SpotRow)
          "Parking 1")
  ∧ lt 0 (total_count
            ({[1 := mkSpot "Parking 1" "Standard" 1;
               2 := mkSpot "Parking 2" "Standard" 0]} : gmap Z SpotRow)
            "Parking 2")
  ∧ get_least_dense_floor
      ({[1 := mkSpot "Parking 1" "Standard" 1;
         2 := mkSpot "Parking 2" "Standard" 0]} : gmap Z SpotRow)
    = "Parking 2".
Proof.
  assert (lt 0 (total_count
                  ({[1 := mkSpot "Parking 1" "Standard" 1;
                     2 := mkSpot "Parking 2" "Standard" 0]} : gmap Z SpotRow)
                  "Parking 1")) as H1 by (vm_compute; lia).
  assert (lt 0 (total_count
                  ({[1 := mkSpot "Parking 1" "Standard" 1;
                     2 := mkSpot "Parking 2" "Standard" 0]} : gmap Z SpotRow)
                  "Parking 2")) as H2 by (vm_compute; lia).
  split; [exact H1|]. split; [exact H2|].
  apply (proj2 (target_floor_by_counts _ H1 H2)).
  - vm_compute. reflexivity.
  - vm_compute. lia.
Defined.

(** ** [get_user_info] beside [allocate_spot] *)

(** X16: a user whose id is 0 is found by [get_user_info], which tests the
    id with [is None], and is refused by [allocate_spot] as a missing id,
    which tests it by truth value. *)
Theorem user_zero_is_looked_up_but_not_served db user :
  Users db !! 0 = Some user →
  get_user_info db (Some 0) = mkInfo (InfoUser 0 (role user) (is_premium user)) 200
  ∧ allocate_spot db (Some 0) = (user_id_required, db).
Proof. intros Huser. unfold get_user_info. by rewrite Huser. Qed.

Lemma user_zero_is_looked_up_but_not_served_witness :
  Users (mkDb ∅ {[0 := mkUser "Admin" 1]}) !! 0 = Some (mkUser "Admin" 1)
  ∧ get_user_info (mkDb ∅ {[0 := mkUser "Admin" 1]}) (Some 0)
    = mkInfo (InfoUser 0 "Admin" 1) 200
  ∧ allocate_spot (mkDb ∅ {[0 := mkUser "Admin" 1]}) (Some 0)
    = (user_id_required, mkDb ∅ {[0 := mkUser "Admin" 1]}).
Proof.
  exact (conj eq_refl
           (user_zero_is_looked_up_but_not_served
              (mkDb ∅ {[0 := mkUser "Admin" 1]}) (mkUser "Admin" 1) eq_refl)).
Defined.

(** X17: for an id other than 0 the two handlers agree on who is known:
    [get_user_info] answers 404 exactly when [allocate_spot] answers
    "Invalid User ID."; and a user that [get_user_info] reports with
    [is_premium] other than 1 is only ever allocated a Standard spot. *)
Theorem user_lookup_agrees_with_allocation db uid :
  uid ≠ 0 →
  (info_status (get_user_info db (Some uid)) = 404
   ↔ (allocate_spot db (Some uid)).1 = invalid_user_id)
  ∧ (∀ ro prem i msg r,
       get_user_info db (Some uid) = mkInfo (InfoUser uid ro prem) 200 →
       prem ≠ 1 →
       (allocate_spot db (Some uid)).1 = allocated i msg →
       ParkingSpots db !! i = Some r →
       spot_type r = "Standard").
Proof.
  intros Huid. split.
  - unfold get_user_info, allocate_spot. rewrite (required_nonzero _ Huid).
    destruct (Users db !! uid) as [user|]; [|by case_decide]. cbv zeta.
    by destruct (allocated_spot_id _).
  - intros ro prem i msg r Hinfo Hprem Hresp Hr.
    unfold get_user_info in Hinfo.
    destruct (Users db !! uid) as [user|] eqn:Huser; [|by case_decide].
    injection Hinfo as <- <-.
    apply allocate_spot_allocated_inv in Hresp
      as (uid' & user' & [= <-] & _ & Huser' & Hs & _ & _).
    assert (user' = user) as -> by congruence.
    apply search_spot_rule in Hs.
    inversion Hs; subst; try done;
      match goal with
      | H : lowest_match (free_on _ _) _ _ |- _ =>
          apply lowest_match_free_on in H as (r' & ? & ? & ? & ?)
      | H : lowest_match (free_anywhere _) _ _ |- _ =>
          apply lowest_match_free_anywhere in H as (r' & ? & ? & ?)
      end; congruence.
Qed.

Lemma user_lookup_agrees_with_allocation_witness :
  102 ≠ 0
  ∧ get_user_info seed_db (Some 102) = mkInfo (InfoUser 102 "Student" 0) 200
  ∧ (allocate_spot seed_db (Some 102)).1
    = allocated 5 "Allocated nearest Standard spot in Parking 1."
  ∧ ParkingSpots seed_db !! 5 = Some (mkSpot "Parking 1" "Standard" 0)
  ∧ spot_type (mkSpot "Parking 1" "Standard" 0) = "Standard".
Proof.
  assert (102 ≠ 0) as Hne by lia.
  assert (0 ≠ 1) as Hprem by lia.
  assert (get_user_info seed_db (Some 102)
          = mkInfo (InfoUser 102 "Student" 0) 200) as Hinfo
    by (vm_compute; reflexivity).
  assert ((allocate_spot seed_db (Some 102)).1
          = allocated 5 "Allocated nearest Standard spot in Parking 1.") as Hresp
    by (vm_compute; reflexivity).
  assert (ParkingSpots seed_db !! 5 = Some (mkSpot "Parking 1" "Standard" 0))
    as Hr by (vm_compute; reflexivity).
  split; [exact Hne|]. split; [exact Hinfo|]. split; [exact Hresp|].
  split; [exact Hr|].
  exact (proj2 (user_lookup_agrees_with_allocation seed_db 102 Hne)
           "Student" 0 5 _ (mkSpot "Parking 1" "Standard" 0)
           Hinfo Hprem Hresp Hr).
Defined.

(** ** Every state the application reaches *)

(** X19: whatever requests are served after [init_db], the listing shows
    the twenty seed spots in the same order with their floor and type,
    every [is_occupied] is 0 or 1, and the three users are as seeded. *)
Theorem reachable_from_seed reqs :
  spot_identity <$> get_spots (serve_all reqs seed_db)
  = spot_identity <$> spec_seed_spots
  ∧ length (get_spots (serve_all reqs seed_db)) = 20%nat
  ∧ flags_binary (ParkingSpots (serve_all reqs seed_db))
  ∧ Users (serve_all reqs seed_db) = Users seed_db.
Proof.
  assert (spot_identity <$> get_spots (serve_all reqs seed_db)
          = spot_identity <$> spec_seed_spots
          ∧ flags_binary (ParkingSpots (serve_all reqs seed_db))
          ∧ Users (serve_all reqs seed_db) = Users seed_db) as (Hid & Hfl & Hu).
  { apply (serve_all_invariant
             (λ db, spot_identity <$> get_spots db
                    = spot_identity <$> spec_seed_spots
                    ∧ flags_binary (ParkingSpots db)
                    ∧ Users db = Users seed_db)).
    - intros db req (Hid & Hfl & Hu).
      destruct (serve_keeps_identity db req) as [Hid' Hu'].
      split; [congruence|]. split; [|congruence].
      by apply serve_keeps_flags_binary.
    - split; [by vm_compute|]. split; [apply seed_flags_binary|done]. }
  split; [done|]. split; [|done].
  rewrite <- (length_fmap spot_identity), Hid. reflexivity.
Qed.

(** X20: after a Standard spot has been released, the next allocation
    succeeds for every known user whose id is not 0; after a Premium spot
    has been released, it succeeds for every known premium user whose id is
    not 0. *)
Theorem release_makes_room db i r uid user :
  status (release_spot db (Some i)).1 = 200 →
  ParkingSpots db !! i = Some r →
  spot_type r = "Standard" ∨ (spot_type r = "Premium" ∧ is_premium user = 1) →
  uid ≠ 0 →
  Users db !! uid = Some user →
  ∃ j msg,
    (allocate_spot (release_spot db (Some i)).2 (Some uid)).1 = allocated j msg.
Proof.
  intros Hok Hr Hty Huid Huser.
  apply release_spot_status_200 in Hok as (i' & r' & [= <-] & _ & Hr' & _ & ->).
  assert (r' = r) as -> by congruence. simpl.
  rewrite (allocate_spot_known _ uid user Huid) by done. cbv zeta. simpl.
  destruct (allocated_spot_id _) as [j|] eqn:Hs; simpl; [by eauto|].
  apply search_spot_None in Hs as [Hstd Hprem].
  pose proof (lookup_update_is_occupied 0 _ _ _ Hr) as Hnew.
  destruct Hty as [Hty|[Hty Hp]].
  - by destruct (Hstd _ _ Hnew).
  - by destruct (Hprem Hp _ _ Hnew).
Qed.

Lemma release_makes_room_witness :
  status (release_spot seed_db (Some 6)).1 = 200
  ∧ ParkingSpots seed_db !! 6 = Some (mkSpot "Parking 1" "Standard" 1)
  ∧ 102 ≠ 0
  ∧ Users seed_db !! 102 = Some (mkUser "Student" 0)
  ∧ ∃ j msg,
      (allocate_spot (release_spot seed_db (Some 6)).2 (Some 102)).1
      = allocated j msg.
Proof.
  assert (102 ≠ 0) as Hne by lia.
  exact (conj eq_refl (conj eq_refl (conj Hne (conj eq_refl
           (release_makes_room seed_db 6 (mkSpot "Parking 1" "Standard" 1)
              102 (mkUser "Student" 0) eq_refl eq_refl (or_introl eq_refl)
              Hne eq_refl))))).
Defined.

(** ** How many allocations a standard user can get *)

Lemma free_standard_count_zero t :
  free_standard_count t = 0%nat ↔ no_match (free_anywhere "Standard") t.
Proof.
  unfold free_standard_count. rewrite map_size_empty_iff, map_empty_filter.
  done.
Qed.

Lemma standard_allocation_step db uid user :
  uid ≠ 0 → Users db !! uid = Some user → is_premium user ≠ 1 →
  Users (allocate_spot db (Some uid)).2 = Users db
  ∧ free_standard_count (ParkingSpots (allocate_spot db (Some uid)).2)
    = pred (free_standard_count (ParkingSpots db))
  ∧ ((allocate_spot db (Some uid)).1 = no_capacity
     ↔ free_standard_count (ParkingSpots db) = 0%nat).
Proof.
  intros Huid Huser Hstd.
  rewrite (allocate_spot_known _ _ _ Huid Huser). cbv zeta.
  rewrite free_standard_count_zero.
  pose proof (search_spot_None (is_premium user) (ParkingSpots db)) as Hnone.
  destruct (allocated_spot_id _) as [i|] eqn:Hs; simpl.
  - split; [done|]. split.
    + apply search_spot_rule in Hs.
      assert (∃ r, ParkingSpots db !! i = Some r
                   ∧ free_anywhere "Standard" r) as (r & Hr & Hfree).
      { inversion Hs; subst; try done;
          match goal with
          | H : lowest_match (free_on _ _) _ _ |- _ =>
              apply lowest_match_free_on in H as (r & ? & ? & ? & ?)
          | H : lowest_match (free_anywhere _) _ _ |- _ =>
              apply lowest_match_free_anywhere in H as (r & ? & ? & ?)
          end; by exists r. }
      rewrite (update_is_occupied_insert _ _ _ _ Hr). unfold free_standard_count.
      pose proof (size_filter_replace
                    (λ kr : Z * SpotRow, free_anywhere "Standard" kr.2) _ _ _
                    (mkSpot (floor r) (spot_type r) 1) Hr) as Hsz.
      simpl in Hsz. rewrite (decide_True (P := free_anywhere "Standard" r)) in Hsz
        by done.
      rewrite decide_False in Hsz by (intros [_ Hocc]; simpl in Hocc; lia).
      lia.
    + split; [done|]. intros Hno.
      assert (Some i = None) as Habs by (apply Hnone; split; [done|by intros ?]).
      done.
  - split; [done|]. split.
    + destruct (proj1 Hnone eq_refl) as [Hno _].
      apply free_standard_count_zero in Hno. by rewrite Hno.
    + split; [|done]. intros _. apply (proj1 Hnone eq_refl).
Qed.

Lemma standard_allocations_count uid user n : ∀ db,
  uid ≠ 0 → Users db !! uid = Some user → is_premium user ≠ 1 →
  Users (serve_all (replicate n (Allocate (Some uid))) db) = Users db
  ∧ free_standard_count
      (ParkingSpots (serve_all (replicate n (Allocate (Some uid))) db))
    = (free_standard_count (ParkingSpots db) - n)%nat.
Proof.
  induction n as [|n IH]; intros db Huid Huser Hstd; simpl.
  - split; [done|]. unfold serve_all. simpl. lia.
  - destruct (standard_allocation_step db uid user Huid Huser Hstd)
      as (Hu & Hcount & _).
    change (serve_all (Allocate (Some uid) :: replicate n (Allocate (Some uid))) db)
      with (serve_all (replicate n (Allocate (Some uid)))
                      (allocate_spot db (Some uid)).2).
    destruct (IH (allocate_spot db (Some uid)).2 Huid) as [Hu' Hcount'];
      [by rewrite Hu|done|].
    rewrite Hu', Hu, Hcount', Hcount. split; [done|lia].
Qed.

(** X21: a known standard user whose id is not 0 and who asks again and
    again is allocated exactly as many spots as there are free Standard
    spots: after [n] requests the
    number of free Standard spots has gone down by [n] (not below 0), and
    the next request is answered "All spots are currently occupied." exactly
    when [n] has reached the number of Standard spots that were free. *)
Theorem standard_user_capacity db uid user n :
  uid ≠ 0 →
  Users db !! uid = Some user →
  is_premium user ≠ 1 →
  free_standard_count
    (ParkingSpots (serve_all (replicate n (Allocate (Some uid))) db))
  = (free_standard_count (ParkingSpots db) - n)%nat
  ∧ ((allocate_spot (serve_all (replicate n (Allocate (Some uid))) db)
                    (Some uid)).1 = no_capacity
     ↔ (free_standard_count (ParkingSpots db) ≤ n)%nat).
Proof.
  intros Huid Huser Hstd.
  destruct (standard_allocations_count uid user n db Huid Huser Hstd)
    as [Hu Hcount].
  split; [done|].
  destruct (standard_allocation_step
              (serve_all (replicate n (Allocate (Some uid))) db) uid user Huid)
    as (_ & _ & Hiff); [by rewrite Hu|done|].
  rewrite Hiff, Hcount. lia.
Qed.

Lemma standard_user_capacity_witness :
  102 ≠ 0
  ∧ Users seed_db !! 102 = Some (mkUser "Student" 0)
  ∧ free_standard_count (ParkingSpots seed_db) = 7%nat
  ∧ free_standard_count
      (ParkingSpots (serve_all (replicate 7 (Allocate (Some 102))) seed_db))
    = 0%nat
  ∧ (allocate_spot (serve_all (replicate 7 (Allocate (Some 102))) seed_db)
                   (Some 102)).1 = no_capacity.
Proof.
  assert (102 ≠ 0) as Hne by lia.
  assert (0 ≠ 1) as Hstd by lia.
  assert (free_standard_count (ParkingSpots seed_db) = 7%nat) as H7
    by reflexivity.
  destruct (standard_user_capacity seed_db 102 (mkUser "Student" 0) 7
              Hne eq_refl Hstd) as [Hcount Hiff].
  rewrite H7 in Hcount, Hiff.
  exact (conj Hne (conj eq_refl (conj H7 (conj Hcount (proj2 Hiff (le_n 7)))))).
Defined.
